(** * Principia: the driver of a Hilbert-style proof checker

    A shallow embedding of [principia.py] and [prover/datatypes.py].

    Python strings are kept as Rocq strings holding their UTF-8 bytes, so
    that the names and the diagnostics of the source can be written as
    they stand there.  Dictionaries are finite maps ([gmap]); assignment
    to an attribute of the shared [State] object is a state update in the
    [cmd] monad below, and [print] appends a line to the run's output. *)

From Stdlib Require Import ZArith String Ascii List.
From stdpp Require Import base option list gmap strings fin_maps pretty.

Set Warnings "-register-all".

Open Scope string_scope.
Open Scope list_scope.

(** ** The reader's output (sexpdata)

    What [sexpdata.parse] hands to the driver: symbols, integers, plain
    lists and bracketed lists.  Strings, floats and quoted forms of the
    reader are not used by any form of the driver and are left out. *)

Inductive sexp : Type :=
| Symbol (value : string)
| Int (n : Z)
| SList (items : list sexp)
| Bracket (items : list sexp).

(** ** prover/datatypes.py *)

Inductive Term : Type :=
| Lit (name : string)
| Var (name : string)
| Symtree (children : list Term)
| Hole.

Inductive Argument : Type :=
| Sorry (name : string)
| LemmaRef (name : string).

Module ProofTerm.
Record t : Type := mk {
  edge : string;
  arguments : list Argument;
  substitutions : gmap string Term
}.
End ProofTerm.

Module InferenceRule.
Record t : Type := mk {
  premises : list Term;
  conclusion : Term
}.
End InferenceRule.

Module State.
Record t : Type := mk {
  variables : list string;
  infix : gmap string Z;
  context : gmap string InferenceRule.t;
  bound : list Term;
  defs : list (Term * Term)
}.

Definition init : t := mk [] ∅ ∅ [] [].

Definition set_variables (v : list string) (s : t) : t :=
  mk v (infix s) (context s) (bound s) (defs s).

Definition set_infix (i : gmap string Z) (s : t) : t :=
  mk (variables s) i (context s) (bound s) (defs s).

Definition set_context (c : gmap string InferenceRule.t) (s : t) : t :=
  mk (variables s) (infix s) c (bound s) (defs s).

Definition set_bound (b : list Term) (s : t) : t :=
  mk (variables s) (infix s) (context s) b (defs s).

Definition set_defs (d : list (Term * Term)) (s : t) : t :=
  mk (variables s) (infix s) (context s) (bound s) d.
End State.

(** [sexpr], the printable form of a term. *)

Definition join (sep : string) (xs : list string) : string :=
  match xs with
  | [] => ""
  | x :: rest => fold_left (fun acc y => acc +:+ sep +:+ y) rest x
  end.

Fixpoint sexpr (τ : Term) : string :=
  match τ with
  | Lit name => name
  | Var name => name
  | Symtree children => "(" +:+ join " " (map sexpr children) +:+ ")"
  | Hole => "_"
  end.

(** ** Exceptions and results

    [Exhausted] is the outcome of a computation that ran out of its
    recursion budget; like an exception that no handler catches, it
    ends everything around it. *)

Inductive exn : Type :=
| VerificationError (message : string)
| SyntaxError (msg : string)
| AssertionError (msg : string)
| IndexError
| ValueError
| TypeError
| OSError (msg : string).

Inductive outcome (A : Type) : Type :=
| Ok (a : A)
| Raise (e : exn)
| Exhausted.

Arguments Ok {A} a.
Arguments Raise {A} e.
Arguments Exhausted {A}.

#[global] Instance outcome_ret : MRet outcome := fun A a => Ok a.

#[global] Instance outcome_bind : MBind outcome := fun A B f m =>
  match m with
  | Ok a => f a
  | Raise e => Raise e
  | Exhausted => Exhausted
  end.

(** A command runs on the shared state: it leaves a state behind (also
    when it raises: the mutations made so far stay), the lines it has
    printed, and its result. *)

Record run (A : Type) : Type := Run {
  final : State.t;
  printed : list string;
  result : outcome A
}.

Arguments Run {A} final printed result.
Arguments final {A} r.
Arguments printed {A} r.
Arguments result {A} r.

Definition cmd (A : Type) : Type := State.t -> run A.

#[global] Instance cmd_ret : MRet cmd := fun A a s => Run s [] (Ok a).

#[global] Instance cmd_bind : MBind cmd := fun A B f m s =>
  let r := m s in
  match result r with
  | Ok a => let r' := f a (final r) in
            Run (final r') (printed r ++ printed r') (result r')
  | Raise e => Run (final r) (printed r) (Raise e)
  | Exhausted => Run (final r) (printed r) Exhausted
  end.

Definition get : cmd State.t := fun s => Run s [] (Ok s).

Definition modify (f : State.t -> State.t) : cmd unit :=
  fun s => Run (f s) [] (Ok tt).

Definition print (line : string) : cmd unit := fun s => Run s [line] (Ok tt).

Definition lift {A} (o : outcome A) : cmd A := fun s => Run s [] o.

(** A call of a function that prints and returns or raises, and leaves
    the state alone. *)

Definition call {A} (r : list string * outcome A) : cmd A :=
  fun s => Run s (fst r) (snd r).

(** [try: body except VerificationError as ex: handler ex.message]. *)

Definition try_except {A} (body : cmd A) (handler : string -> cmd A) : cmd A :=
  fun s =>
    let r := body s in
    match result r with
    | Raise (VerificationError message) =>
        let r' := handler message (final r) in
        Run (final r') (printed r ++ printed r') (result r')
    | _ => r
    end.

(** ** The modules of the prover that the driver imports *)

(** prover.parser: [symbol] reads a name off an atom, [term] lowers an
    expression to a [Term] under the declarations of the state. *)

Class Parser : Type := {
  symbol : sexp -> outcome string;
  term : State.t -> sexp -> outcome Term
}.

(** prover.checker: [match_] returns whether the pattern matched together
    with the substitution as the call has left it. *)

Class Checker : Type := {
  match_ : gmap string Term -> Term -> Term -> bool * gmap string Term;
  multisubst : gmap string Term -> Term -> Term;
  infer : gmap string InferenceRule.t -> list Term -> ProofTerm.t ->
          list string * outcome Term;
  check : gmap string InferenceRule.t -> list Term -> Term -> ProofTerm.t ->
          list string * outcome unit
}.

(** The file system and the reader, as [dopath] and [doexprs] see them. *)

Class World : Type := {
  path_exists : string -> bool;
  path_isdir : string -> bool;
  read : string -> outcome string;
  sexpdata_parse : string -> outcome (list sexp)
}.

(** Modelled from the spec: prover.prelude is not among the sources.
    [nonempty] and [maplist] are what their uses in principia.py need
    them to be: a test for a list with an element, and [list(map(f, xs))],
    which stops at the first element on which [f] raises. *)

Definition nonempty {A} (xs : list A) : bool :=
  match xs with
  | [] => false
  | _ :: _ => true
  end.

Fixpoint maplist {A B} (f : A -> outcome B) (xs : list A) : outcome (list B) :=
  match xs with
  | [] => Ok []
  | x :: rest => y ← f x; ys ← maplist f rest; Ok (y :: ys)
  end.

(** [xs.pop()]: the list without its last element, and that element. *)

Fixpoint pop {A} (xs : list A) : outcome (list A * A) :=
  match xs with
  | [] => Raise IndexError
  | [x] => Ok ([], x)
  | x :: rest => '(init, y) ← pop rest; Ok (x :: init, y)
  end.

(** [d.update(pairs)]: each pair is written into [d] in turn, a later
    pair over an earlier one of the same key. *)

Definition update {V} (d : gmap string V) (pairs : list (string * V)) : gmap string V :=
  fold_left (fun d kv => <[kv.1 := kv.2]> d) pairs d.

(** A [for] loop over a list, run for its effects. *)

Fixpoint each {A} (f : A -> cmd unit) (xs : list A) : cmd unit :=
  match xs with
  | [] => mret tt
  | x :: rest => f x;; each f rest
  end.

(** Lookup in a dictionary literal. *)

Fixpoint assoc {V} (key : string) (table : list (string * V)) : option V :=
  match table with
  | [] => None
  | (k, v) :: rest => if String.eqb key k then Some v else assoc key rest
  end.

(** ** principia.py *)

(** [containsonly(ch, s)]: every character of [s] is [ch].  A character
    is given by its UTF-8 bytes, so the test strips copies of [ch] off
    the front of [s] until nothing is left. *)

Fixpoint strip_prefix (ch s : string) : option string :=
  match ch, s with
  | EmptyString, _ => Some s
  | String a ch', String b s' =>
      if Ascii.eqb a b then strip_prefix ch' s' else None
  | String _ _, EmptyString => None
  end.

Fixpoint containsonly_upto (n : nat) (ch s : string) : bool :=
  match s with
  | EmptyString => true
  | String _ _ =>
      match n with
      | 0 => false
      | S n' =>
          match strip_prefix ch s with
          | Some s' => containsonly_upto n' ch s'
          | None => false
          end
      end
  end.

Definition containsonly (ch s : string) : bool :=
  containsonly_upto (String.length s) ch s.

Definition isseparator (expr : sexp) : bool :=
  match expr with
  | Symbol value => existsb (fun ch => containsonly ch value) ["─"; "-"]
  | _ => false
  end.

Definition separators : list string := [":="; "≔"].

Section Driver.

Context `{Parser} `{Checker} `{World}.

(** The depth to which [macroexpand] may recurse. *)
Variable depth : nat.

(** The [for] loop of [macroexpand]: the first definition whose pattern
    matches rewrites the term, and the loop is left. *)

Fixpoint macroexpand_head (defs : list (Term * Term)) (τ : Term) : Term :=
  match defs with
  | [] => τ
  | (pattern, body) :: rest =>
      let '(matched, substs) := match_ ∅ pattern τ in
      if matched then multisubst substs body else macroexpand_head rest τ
  end.

Fixpoint macroexpand (fuel : nat) (curr : State.t) (τ : Term) : outcome Term :=
  match fuel with
  | 0 => Exhausted
  | S fuel' =>
      match macroexpand_head (State.defs curr) τ with
      | Symtree children =>
          children' ← maplist (macroexpand fuel' curr) children;
          Ok (Symtree children')
      | τ' => Ok τ'
      end
  end.

Definition parseterm (curr : State.t) (expr : sexp) : outcome Term :=
  τ ← term curr expr; macroexpand depth curr τ.

Definition postulated (name : string) : string := "“" +:+ name +:+ "” postulated".

Definition already_postulated (name : string) : string :=
  "Error: “" +:+ name +:+ "” is already postulated".

Fixpoint postulate_loop (premises : list Term) (expr : list sexp) : cmd unit :=
  match expr with
  | [] =>
      if nonempty premises then lift (Raise (SyntaxError "incomplete definition"))
      else mret tt
  | elem :: expr1 =>
      if isseparator elem then
        match expr1 with
        | [] => lift (Raise IndexError)
        | n :: expr2 =>
            name ← lift (symbol n);
            match expr2 with
            | [] => lift (Raise IndexError)
            | c :: expr3 =>
                curr ← get;
                conclusion ← lift (parseterm curr c);
                (if decide (is_Some (State.context curr !! name)) then
                   print (already_postulated name)
                 else
                   modify (fun s => State.set_context
                     (<[name := InferenceRule.mk premises conclusion]>
                        (State.context s)) s);;
                   print (postulated name));;
                postulate_loop [] expr3
            end
        end
      else
        curr ← get;
        τ ← lift (parseterm curr elem);
        postulate_loop (premises ++ [τ]) expr1
  end.

Definition postulate (expr : list sexp) : cmd unit := postulate_loop [] expr.

(** [genenv] yields its pairs one by one to [dict]; either all of them
    arrive or the first exception ends the call. *)

Fixpoint genenv (curr : State.t) (it : list sexp) : outcome (list (string * Term)) :=
  match it with
  | [] => Ok []
  | elem :: it1 =>
      var ← symbol elem;
      match it1 with
      | [] => Raise (SyntaxError ("“" +:+ var +:+ "” mapped to nothing"))
      | s :: it2 =>
          sep ← symbol s;
          match it2 with
          | [] => Raise (SyntaxError ("“" +:+ var +:+ "” mapped to nothing"))
          | e :: it3 =>
              expr ← parseterm curr e;
              if decide (sep ∈ separators) then
                rest ← genenv curr it3; Ok ((var, expr) :: rest)
              else Raise (SyntaxError "invalid substitution list")
          end
      end
  end.

(** [dict(pairs)]: the pairs are inserted in the order they arrive. *)

Definition dict {V} (pairs : list (string * V)) : gmap string V := update ∅ pairs.

Definition argument (expr : sexp) : outcome Argument :=
  match expr with
  | Symbol _ | Int _ => name ← symbol expr; Ok (LemmaRef name)
  | SList [edge; tag] =>
      match edge with
      | Symbol "sorry" => name ← symbol tag; Ok (Sorry name)
      | _ => Raise (SyntaxError "invalid proof term")
      end
  | SList _ => Raise ValueError
  | Bracket _ => Raise TypeError
  end.

(** Modelled from the spec: prover.prelude.first is not among the
    sources.  Scenario 2 of the spec takes the proof term [(Id)], which
    has no argument, as far as the arity check, so [first] of an empty
    list is a value, and one that is no [Bracket]. *)

Definition first {A} (xs : list A) : option A :=
  match xs with
  | [] => None
  | x :: _ => Some x
  end.

Definition proof (curr : State.t) (expr : sexp) : outcome ProofTerm.t :=
  match expr with
  | SList (edge :: args) =>
      let '(substs, args) :=
        match first args, args with
        | Some (Bracket items), _ :: args' => (items, args')
        | _, _ => ([], args)
        end in
      name ← symbol edge;
      arguments ← maplist argument args;
      env ← genenv curr substs;
      Ok (ProofTerm.mk name arguments (dict env))
  | SList [] => Raise ValueError
  | _ => Raise TypeError
  end.

Fixpoint proofs (curr : State.t) (expr : list sexp) : outcome (list (string * ProofTerm.t)) :=
  match expr with
  | [] => Ok []
  | n :: expr1 =>
      name ← symbol n;
      match expr1 with
      | [] => Raise IndexError
      | b :: expr2 =>
          body ← proof curr b;
          res ← proofs curr expr2;
          Ok ((name, body) :: res)
      end
  end.

Fixpoint preamble_loop (curr : State.t) (names : list string) (premises : list Term)
    (expected : nat) (expr : list sexp)
  : outcome (string * Term * list string * list Term * list (string * ProofTerm.t)) :=
  match expr with
  | [] => Raise IndexError
  | elem :: expr1 =>
      if isseparator elem then
        match expr1 with
        | [] => Raise IndexError
        | n :: expr2 =>
            name ← symbol n;
            preamble_loop curr (names ++ [name]) premises (S expected) expr2
        end
      else
        match expected with
        | S expected' =>
            τ ← parseterm curr elem;
            preamble_loop curr names (premises ++ [τ]) expected' expr1
        | 0 =>
            '(names', name) ← pop names;
            '(premises', conclusion) ← pop premises;
            body ← proofs curr (elem :: expr1);
            Ok (name, conclusion, names', premises', body)
        end
  end.

Definition preamble (curr : State.t) (expr : list sexp) :=
  preamble_loop curr [] [] 0 expr.

Definition checked (name : string) : string := "“" +:+ name +:+ "” checked".

Definition not_checked (name : string) : string :=
  "“" +:+ name +:+ "” has not been checked".

Definition already_defined (name : string) : string :=
  "Error: theorem “" +:+ name +:+ "” is already defined".

(** The theorem-local context: a copy of the context, over which the
    premises are written as rules without premises. *)

Definition local_context (context : gmap string InferenceRule.t)
    (names : list string) (premises : list Term) : gmap string InferenceRule.t :=
  update context (zip names (InferenceRule.mk [] <$> premises)).

(** The loop over the local lemmas of a theorem. *)

Fixpoint theorem_locals (bound : list Term) (τctx : gmap string InferenceRule.t)
    (proofs : list (string * ProofTerm.t)) : cmd (gmap string InferenceRule.t) :=
  match proofs with
  | [] => mret τctx
  | (x, xs) :: rest =>
      τ ← call (infer τctx bound xs);
      theorem_locals bound (<[x := InferenceRule.mk [] τ]> τctx) rest
  end.

(** The statements of the [try] block that can raise: the loop over the
    local lemmas, then the check of the final proof. *)

Definition verify (bound : list Term) (τctx : gmap string InferenceRule.t)
    (proofs : list (string * ProofTerm.t)) (conclusion : Term)
    (proof : ProofTerm.t) : cmd unit :=
  τctx' ← theorem_locals bound τctx proofs;
  call (check τctx' bound conclusion proof).

Definition theorem (expr : list sexp) : cmd unit :=
  if nonempty expr then
    curr ← get;
    '(name, conclusion, names, premises, proofs) ← lift (preamble curr expr);
    '(proofs, (_, proof)) ← lift (pop proofs);
    let τctx := local_context (State.context curr) names premises in
    if decide (is_Some (State.context curr !! name)) then
      print (already_defined name)
    else
      try_except
        (verify (State.bound curr) τctx proofs conclusion proof;;
         print (checked name);;
         modify (fun s => State.set_context
           (<[name := InferenceRule.mk premises conclusion]> (State.context s)) s))
        (fun message =>
           print (not_checked name);;
           print ("Error: " +:+ message))
  else mret tt.

Definition operator_defined (name : string) (prec : Z) : string :=
  "Error: operator “" +:+ name +:+ "” (" +:+ pretty prec +:+ ") is already defined".

Definition infix (expr : list sexp) : cmd unit :=
  match expr with
  | [ident; prec] =>
      match prec with
      | Int p =>
          name ← lift (symbol ident);
          curr ← get;
          match State.infix curr !! name with
          | Some old => print (operator_defined name old)
          | None => modify (fun s => State.set_infix (<[name := p]> (State.infix s)) s)
          end
      | _ => lift (Raise (AssertionError "precedence must be an integer"))
      end
  | _ => lift (Raise ValueError)
  end.

Definition variables (expr : list sexp) : cmd unit :=
  names ← lift (maplist symbol expr);
  modify (fun s => State.set_variables (State.variables s ++ names) s).

Definition bound (expr : list sexp) : cmd unit :=
  curr ← get;
  terms ← lift (maplist (term curr) expr);
  modify (fun s => State.set_bound (State.bound s ++ terms) s).

Definition define (expr : list sexp) : cmd unit :=
  match expr with
  | [pattern; body] =>
      curr ← get;
      pattern' ← lift (term curr pattern);
      body' ← lift (parseterm curr body);
      modify (fun s => State.set_defs (State.defs s ++ [(pattern', body')]) s)
  | _ => lift (Raise ValueError)
  end.

(** [include] and the functions below it call [dopath], which calls
    them in turn: they take it as an argument, and [dopath] closes the
    knot, counting the nesting of includes down. *)

Section Files.

Variable dopath : string -> cmd unit.

Definition include (exprs : list sexp) : cmd unit :=
  each (fun expr => path ← lift (symbol expr); dopath path) exprs.

Definition forms : list (string * (list sexp -> cmd unit)) :=
  [ ("postulate", postulate);
    ("theorem", theorem);
    ("lemma", theorem);
    ("infix", infix);
    ("variables", variables);
    ("bound", bound);
    ("define", define);
    ("include", include) ].

Definition unknown_form (form : string) : string := "unknown form “" +:+ form +:+ "”".

Definition evaluate (expr : sexp) : cmd unit :=
  match expr with
  | SList (head :: tail) =>
      form ← lift (symbol head);
      match assoc form forms with
      | Some handler => handler tail
      | None => lift (Raise (AssertionError (unknown_form form)))
      end
  | SList [] => lift (Raise ValueError)
  | _ => lift (Raise TypeError)
  end.

Definition doexprs (text : string) : cmd unit :=
  modify (State.set_variables []);;
  exprs ← lift (sexpdata_parse text);
  each evaluate exprs.

Definition dofile (filename : string) : cmd unit :=
  print ("Checking " +:+ filename);;
  text ← lift (read filename);
  doexprs text.

End Files.

Fixpoint dopath (fuel : nat) (path : string) : cmd unit :=
  if negb (path_exists path) then
    print ("Error: path " +:+ path +:+ " does not exists")
  else if path_isdir path then
    print ("Error: path " +:+ path +:+ " is a directory")
  else
    dofile
      match fuel with
      | 0 => fun _ => lift Exhausted
      | S fuel' => dopath fuel'
      end
      path.

(** The module's top level: one state, the files in order. *)

Definition main (fuel : nat) (filenames : list string) : run unit :=
  each (dopath fuel) filenames State.init.

End Driver.

(** ** The kernel, as the specification describes it

    The instances below stand in for prover.parser and prover.checker
    wherever a run on a concrete input is computed.  The theorems further
    down hold for every parser and checker. *)

Module Reference.

(** Structural equality of terms. *)

Fixpoint Term_eqb (a b : Term) : bool :=
  match a, b with
  | Lit x, Lit y => String.eqb x y
  | Var x, Var y => String.eqb x y
  | Symtree xs, Symtree ys =>
      (fix all2 (xs ys : list Term) : bool :=
         match xs, ys with
         | [], [] => true
         | x :: xs', y :: ys' => Term_eqb x y && all2 xs' ys'
         | _, _ => false
         end) xs ys
  | Hole, Hole => true
  | _, _ => false
  end.

(** Modelled from the spec: prover.checker.match is not among the
    sources; §4.B gives its rules.  The children of a composite pattern
    are matched in order, and the first failure ends the match with the
    bindings made so far. *)

Fixpoint spec_match (subst : gmap string Term) (pattern subject : Term)
  : bool * gmap string Term :=
  match pattern with
  | Hole => (true, subst)
  | Var n =>
      match subst !! n with
      | Some prior => (Term_eqb prior subject, subst)
      | None => (true, <[n := subject]> subst)
      end
  | Lit n =>
      match subject with
      | Lit m => (String.eqb n m, subst)
      | _ => (false, subst)
      end
  | Symtree ps =>
      match subject with
      | Symtree ss =>
          (fix children (subst : gmap string Term) (ps ss : list Term)
             : bool * gmap string Term :=
             match ps, ss with
             | [], [] => (true, subst)
             | p :: ps', s :: ss' =>
                 let '(matched, subst') := spec_match subst p s in
                 if matched then children subst' ps' ss' else (false, subst')
             | _, _ => (false, subst)
             end) subst ps ss
      | _ => (false, subst)
      end
  end.

(** Modelled from the spec: prover.checker.multisubst is not among the
    sources; §4.B: every [Var n] with [n] bound is replaced by its
    binding, composites are rewritten child by child. *)

Fixpoint spec_multisubst (subst : gmap string Term) (τ : Term) : Term :=
  match τ with
  | Var n =>
      match subst !! n with
      | Some τ' => τ'
      | None => Var n
      end
  | Symtree children => Symtree (map (spec_multisubst subst) children)
  | Lit n => Lit n
  | Hole => Hole
  end.

Definition unknown_rule (name : string) : exn :=
  VerificationError ("unknown rule “" +:+ name +:+ "”").

Definition arity_mismatch (name : string) : exn :=
  VerificationError ("arity mismatch in “" +:+ name +:+ "”").

Definition premise_mismatch (template actual : Term) : exn :=
  VerificationError ("premise mismatch: " +:+ sexpr template +:+ " against " +:+ sexpr actual).

Definition conclusion_mismatch (expected derived : Term) : exn :=
  VerificationError ("conclusion mismatch: expected " +:+ sexpr expected +:+
                     ", derived " +:+ sexpr derived).

(** Step 5 of [infer]: the premises of the rule against the arguments,
    in order.  [cited] infers the conclusion of a cited lemma. *)

Fixpoint spec_infer_premises (cited : string -> list string * outcome Term)
    (σ : gmap string Term) (pairs : list (Term * Argument))
  : list string * outcome (gmap string Term) :=
  match pairs with
  | [] => ([], Ok σ)
  | (template, Sorry tag) :: rest =>
      let '(out, r) := spec_infer_premises cited σ rest in
      (("sorry “" +:+ tag +:+ "”: " +:+ sexpr template) :: out, r)
  | (template, LemmaRef name) :: rest =>
      match cited name with
      | (out, Ok actual) =>
          let '(matched, σ') := spec_match σ template actual in
          if matched then
            let '(out', r) := spec_infer_premises cited σ' rest in (out ++ out', r)
          else (out, Raise (premise_mismatch template actual))
      | (out, Raise e) => (out, Raise e)
      | (out, Exhausted) => (out, Exhausted)
      end
  end.

Definition spec_infer_with (cited : string -> list string * outcome Term)
    (ctx : gmap string InferenceRule.t) (proof : ProofTerm.t)
  : list string * outcome Term :=
  match ctx !! ProofTerm.edge proof with
  | None => ([], Raise (unknown_rule (ProofTerm.edge proof)))
  | Some rule =>
      if decide (length (ProofTerm.arguments proof) =
                 length (InferenceRule.premises rule)) then
        let '(out, r) :=
          spec_infer_premises cited (ProofTerm.substitutions proof)
            (zip (InferenceRule.premises rule) (ProofTerm.arguments proof)) in
        (out, σ ← r; Ok (spec_multisubst σ (InferenceRule.conclusion rule)))
      else ([], Raise (arity_mismatch (ProofTerm.edge proof)))
  end.

(** Modelled from the spec: prover.checker.infer is not among the
    sources; §4.F, steps 1 to 6.  A cited lemma is inferred as the proof
    [Proof(name, [], {})]: it has no argument, so that inner call cites
    nothing in its turn.  The wording of the messages is this model's;
    the spec fixes their kinds only. *)

Definition spec_infer (ctx : gmap string InferenceRule.t) (bound : list Term)
    (proof : ProofTerm.t) : list string * outcome Term :=
  spec_infer_with
    (fun name => spec_infer_with (fun _ => ([], Exhausted)) ctx (ProofTerm.mk name [] ∅))
    ctx proof.

(** Modelled from the spec: prover.checker.check is not among the
    sources; §4.F: infer, then structural equality with the expected
    term. *)

Definition spec_check (ctx : gmap string InferenceRule.t) (bound : list Term)
    (expected : Term) (proof : ProofTerm.t) : list string * outcome unit :=
  match spec_infer ctx bound proof with
  | (out, Ok derived) =>
      if Term_eqb expected derived then (out, Ok tt)
      else (out, Raise (conclusion_mismatch expected derived))
  | (out, Raise e) => (out, Raise e)
  | (out, Exhausted) => (out, Exhausted)
  end.

Definition checker : Checker :=
  {| match_ := spec_match;
     multisubst := spec_multisubst;
     infer := spec_infer;
     check := spec_check |}.

(** Modelled from the spec: prover.parser is not among the sources.
    [symbol] gives the name of a symbol and the decimal of an integer,
    which is what [argument] and [evaluate] use it for.  [term] is the
    prefix fragment of §4.D: an atom is a [Var] when the state declares
    it a variable, [Hole] when it is the underscore, a [Lit] otherwise,
    and a list is the [Symtree] of its items in order.  The operator
    table and the schematic marker of the surface syntax are not
    modelled: this instance is for sources without infix operators. *)

Definition spec_symbol (expr : sexp) : outcome string :=
  match expr with
  | Symbol value => Ok value
  | Int n => Ok (pretty n)
  | _ => Raise (SyntaxError "expected a symbol")
  end.

Fixpoint spec_term (curr : State.t) (expr : sexp) : outcome Term :=
  match expr with
  | Symbol value =>
      if decide (value ∈ State.variables curr) then Ok (Var value)
      else if String.eqb value "_" then Ok Hole
      else Ok (Lit value)
  | Int n => Ok (Lit (pretty n))
  | SList items =>
      children ← (fix lower (items : list sexp) : outcome (list Term) :=
         match items with
         | [] => Ok []
         | item :: rest =>
             τ ← spec_term curr item; τs ← lower rest; Ok (τ :: τs)
         end) items;
      Ok (Symtree children)
  | Bracket _ => Raise (SyntaxError "unexpected bracket")
  end.

Definition parser : Parser :=
  {| symbol := spec_symbol; term := spec_term |}.

End Reference.

(** ** Properties *)

(** The run [r], with the lines [out] printed before it. *)

Definition after {A} (out : list string) (r : run A) : run A :=
  Run (final r) (out ++ printed r) (result r).

(** A command that leaves the state as it found it. *)

Definition reads_only {A} (c : cmd A) : Prop := forall s, final (c s) = s.

(** A command after which every rule of the context is still there,
    under its name and as it was. *)

Definition keeps_context {A} (c : cmd A) : Prop :=
  forall s, State.context s ⊆ State.context (final (c s)).

(** A result that is a value or a verification error. *)

Definition verification_outcome {A} (o : outcome A) : Prop :=
  match o with
  | Ok _ => True
  | Raise (VerificationError _) => True
  | _ => False
  end.

(** *** The behaviour to compare the code with *)

Section Words.

Context `{Checker}.

(** The head rewrite of macro expansion, in the words of its
    description: the first definition, in declaration order, whose
    pattern matches the term from the empty substitution rewrites it to
    its body under the bindings of that match; no definition after it
    is tried; when none matches the term stays. *)

Definition head_rewrite (defs : list (Term * Term)) (t : Term) : Term :=
  match List.find (fun def => (match_ ∅ def.1 t).1) defs with
  | Some (pattern, body) => multisubst (match_ ∅ pattern t).2 body
  | None => t
  end.

(** Expansion: one head rewrite; then a composite result has each child
    expanded, in order, and any other result is returned as it is. *)

Inductive expands (curr : State.t) : Term -> Term -> Prop :=
| expands_children (t : Term) (children children' : list Term) :
    head_rewrite (State.defs curr) t = Symtree children ->
    Forall2 (expands curr) children children' ->
    expands curr t (Symtree children')
| expands_leaf (t t' : Term) :
    head_rewrite (State.defs curr) t = t' ->
    (forall children, t' <> Symtree children) ->
    expands curr t t'.

(** The local lemmas of a theorem, taken in order: each proof is
    inferred against the local context as the lemmas before it have
    left it, and its conclusion enters that context under the lemma's
    name as a rule without premises. *)

Inductive locals_inferred (bound : list Term)
  : gmap string InferenceRule.t -> list (string * ProofTerm.t) ->
    gmap string InferenceRule.t -> Prop :=
| locals_done (τctx : gmap string InferenceRule.t) :
    locals_inferred bound τctx [] τctx
| locals_next (τctx τctx' : gmap string InferenceRule.t) (x : string)
    (xs : ProofTerm.t) (out : list string) (τ : Term)
    (rest : list (string * ProofTerm.t)) :
    infer τctx bound xs = (out, Ok τ) ->
    locals_inferred bound (<[x := InferenceRule.mk [] τ]> τctx) rest τctx' ->
    locals_inferred bound τctx ((x, xs) :: rest) τctx'.

End Words.

(** The binding of [k] that was written last. *)

Definition last_written {V} (k : string) (pairs : list (string * V)) : option V :=
  snd <$> last (filter (fun kv => kv.1 = k) pairs).

Section Written.

Context `{Parser} `{Checker} `{World}.

Variable depth : nat.

(** The bindings that a bracketed substitution list writes, in the order
    they are written: the list goes by threes, a variable, a separator
    and an expression, and each three writes the variable's name against
    the parsed expression. *)

Inductive binds (curr : State.t) : list sexp -> list (string * Term) -> Prop :=
| binds_none : binds curr [] []
| binds_more (v s e : sexp) (rest : list sexp) (var sep : string) (τ : Term)
    (written : list (string * Term)) :
    symbol v = Ok var ->
    symbol s = Ok sep ->
    sep ∈ separators ->
    parseterm depth curr e = Ok τ ->
    binds curr rest written ->
    binds curr (v :: s :: e :: rest) ((var, τ) :: written).

(** A file that [dopath] processes: it is there, it is no directory, and
    it can be read. *)

Definition processed_file (path text : string) : Prop :=
  path_exists path = true /\ path_isdir path = false /\ read path = Ok text.

(** [dopath] as the forms of a file call it, when the file itself is
    processed with [fuel]. *)

Definition nested (fuel : nat) : string -> cmd unit :=
  match fuel with
  | 0 => fun _ => lift Exhausted
  | S fuel' => dopath depth fuel'
  end.

(** An error that stops at the file boundary, as a property of a run over
    the files of the command line: when a file raises an exception, the
    files after it are processed all the same, from the state that the
    failed file has left. *)

Definition error_stops_at_file (fuel : nat) : Prop :=
  forall (before : list string) (failed : string) (later : list string) (e : exn),
    let r1 := each (dopath depth fuel) before State.init in
    let r2 := dopath depth fuel failed (final r1) in
    result r1 = Ok tt ->
    result r2 = Raise e ->
    final (main depth fuel (before ++ failed :: later)) =
    final (each (dopath depth fuel) later (final r2)).

End Written.

(** ** Sample sources

    A file is given by its text and by the forms that the reader makes of
    that text. *)

Record file : Type := File {
  file_text : string;
  file_forms : list sexp
}.

Fixpoint forms_of (files : list (string * file)) (text : string) : outcome (list sexp) :=
  match files with
  | [] => Raise (SyntaxError "unreadable text")
  | (_, f) :: rest =>
      if String.eqb text (file_text f) then Ok (file_forms f)
      else forms_of rest text
  end.

Definition files_world (files : list (string * file)) : World :=
  {| path_exists path := bool_decide (is_Some (assoc path files));
     path_isdir _ := false;
     read path :=
       match assoc path files with
       | Some f => Ok (file_text f)
       | None => Raise (OSError path)
       end;
     sexpdata_parse := forms_of files |}.

Definition sample_files : list (string * file) :=
  [ ("bad.pri",
     File "(postulate A)" [SList [Symbol "postulate"; Symbol "A"]]);
    ("good.pri",
     File "(postulate ─ B B)"
          [SList [Symbol "postulate"; Symbol "─"; Symbol "B"; Symbol "B"]]);
    ("inc.pri",
     File "(variables ψ)" [SList [Symbol "variables"; Symbol "ψ"]]) ].

Definition sample_world : World := files_world sample_files.

(** The state after [(postulate ─ A A)]. *)

Definition with_A : State.t :=
  State.mk [] ∅ {[ "A" := InferenceRule.mk [] (Lit "A") ]} [] [].

(** The state after [(variables φ) (postulate φ ─ Id φ)]. *)

Definition with_Id : State.t :=
  State.mk ["φ"] ∅ {[ "Id" := InferenceRule.mk [Var "φ"] (Var "φ") ]} [] [].

(** The state after [(variables φ ψ) (postulate φ (⇒ φ ψ) ─ MP ψ)
    (postulate ─ A A ─ AimpB (⇒ A B))]. *)

Definition with_MP : State.t :=
  State.mk ["φ"; "ψ"] ∅
    (<["MP" := InferenceRule.mk
                 [Var "φ"; Symtree [Lit "⇒"; Var "φ"; Var "ψ"]] (Var "ψ")]>
       (<["AimpB" := InferenceRule.mk [] (Symtree [Lit "⇒"; Lit "A"; Lit "B"])]>
          {[ "A" := InferenceRule.mk [] (Lit "A") ]}))
    [] [].

(** The state after [(infix + 5)]. *)

Definition with_plus : State.t := State.mk [] {[ "+" := 5%Z ]} ∅ [] [].

(** [X] by [Id] without its argument. *)

Definition arity_form : list sexp :=
  [Symbol "─"; Symbol "X"; Symbol "X"; Symbol "qed"; SList [Symbol "Id"]].

(** [B] by modus ponens in a local lemma, then the lemma as the proof. *)

Definition mp_proof : sexp :=
  SList [Symbol "MP";
         Bracket [Symbol "φ"; Symbol "≔"; Symbol "A";
                  Symbol "ψ"; Symbol ":="; Symbol "B"];
         Symbol "A"; Symbol "AimpB"].

Definition mp_form : list sexp :=
  [Symbol "─"; Symbol "B"; Symbol "B";
   Symbol "step"; mp_proof; Symbol "qed"; SList [Symbol "step"]].

(** A substitution list that binds [φ] twice. *)

Definition twice_bound : sexp :=
  SList [Symbol "MP";
         Bracket [Symbol "φ"; Symbol "≔"; Symbol "A";
                  Symbol "φ"; Symbol ":="; Symbol "B"];
         Symbol "x"].

(** The definition of negation of the specification's fourth scenario,
    and a definition that rewrites a term into a composite of itself. *)

Definition negation_forms : list sexp :=
  [ SList [Symbol "variables"; Symbol "φ"];
    SList [Symbol "define"; SList [Symbol "¬"; Symbol "φ"];
           SList [Symbol "⇒"; Symbol "φ"; Symbol "⊥"]];
    SList [Symbol "postulate"; Symbol "─"; Symbol "NA";
           SList [Symbol "¬"; Symbol "A"]] ].

Definition with_loop : State.t :=
  State.mk [] ∅ ∅ [] [(Lit "x", Symtree [Lit "x"; Lit "x"])].

(** *** Further notions for the properties of the driver *)

(** [n] copies of the character [ch], one after the other. *)

Fixpoint run_of (n : nat) (ch : string) : string :=
  match n with
  | 0 => EmptyString
  | S n' => ch +:+ run_of n' ch
  end.

(** The hypotheses of a theorem form as they are written: for each one a
    separator, a name and a term. *)

Fixpoint hypotheses_written (hyps : list (sexp * sexp * sexp)) : list sexp :=
  match hyps with
  | [] => []
  | (sep, name, τ) :: rest => sep :: name :: τ :: hypotheses_written rest
  end.

(** What the parser reads of a state has grown from [s] to [s']: the
    operators of [s] are operators of [s'] with the precedence they had,
    and the bound terms and the definitions of [s] open the lists of
    [s'], in their order. *)

Definition grows (s s' : State.t) : Prop :=
  State.infix s ⊆ State.infix s' /\
  State.bound s `prefix_of` State.bound s' /\
  State.defs s `prefix_of` State.defs s'.

(** A command over which the parser's part of the state grows. *)

Definition growing {A} (c : cmd A) : Prop := forall s, grows s (final (c s)).

(** The height of a term: the longest chain of composites in it. *)

Fixpoint height (t : Term) : nat :=
  match t with
  | Symtree children => S (foldr (fun c n => height c `max` n) 0 children)
  | _ => 0
  end.

(** The variables of a term turned into literals of the same names. *)

Fixpoint literal (t : Term) : Term :=
  match t with
  | Var name => Lit name
  | Symtree children => Symtree (map literal children)
  | _ => t
  end.

Section Untouched.

Context `{Checker}.

(** A term that no definition rewrites, at its head or inside. *)

Inductive untouched (defs : list (Term * Term)) : Term -> Prop :=
| untouched_here (t : Term) :
    macroexpand_head defs t = t ->
    (forall children, t = Symtree children -> Forall (untouched defs) children) ->
    untouched defs t.

End Untouched.

(** A checker whose inference runs into a type error, whatever it is
    given; the rest of it is the kernel of the specification. *)

Definition broken_checker : Checker :=
  {| match_ := Reference.spec_match;
     multisubst := Reference.spec_multisubst;
     infer := fun _ _ _ => ([], Raise TypeError);
     check := fun _ _ _ _ => ([], Raise TypeError) |}.

(** A file that includes itself. *)

Definition loop_world : World :=
  files_world
    [ ("loop.pri",
       File "(include loop.pri)" [SList [Symbol "include"; Symbol "loop.pri"]]) ].

(** A theorem with one hypothesis, proved by that hypothesis. *)

Definition assumption_form : list sexp :=
  [Symbol "─"; Symbol "h"; Symbol "A";
   Symbol "─"; Symbol "T"; Symbol "A";
   Symbol "qed"; SList [Symbol "h"]].

(** The definition of negation, and a term it does not reach. *)

Definition with_negation : State.t :=
  State.mk ["φ"] ∅ ∅ []
    [(Symtree [Lit "¬"; Var "φ"], Symtree [Lit "⇒"; Var "φ"; Lit "⊥"])].

Section Declared.

Context `{Parser}.

(** A form whose head names [include]. *)

Definition names_include (expr : sexp) : Prop :=
  exists head tail, expr = SList (head :: tail) /\ symbol head = Ok "include".

(** The names that a form declares: those of a variables form whose
    items are all names, in their order; no name for any other form. *)

Definition declared_by (expr : sexp) : list string :=
  match expr with
  | SList (head :: tail) =>
      match symbol head with
      | Ok form =>
          if String.eqb form "variables" then
            match maplist symbol tail with
            | Ok names => names
            | _ => []
            end
          else []
      | _ => []
      end
  | _ => []
  end.

End Declared.

Section Monad.

Context {A B : Type}.

Lemma after_nil (r : run A) : after [] r = r.
Proof. by destruct r. Qed.

Lemma after_after (out out' : list string) (r : run A) :
  after out (after out' r) = after (out ++ out') r.
Proof. unfold after; simpl. by rewrite app_assoc. Qed.

Lemma bind_ok (m : cmd A) (f : A -> cmd B) (s : State.t) (a : A) :
  result (m s) = Ok a -> (m ≫= f) s = after (printed (m s)) (f a (final (m s))).
Proof. intros E. unfold mbind, cmd_bind, after. by rewrite E. Qed.

Lemma bind_raise (m : cmd A) (f : A -> cmd B) (s : State.t) (e : exn) :
  result (m s) = Raise e ->
  (m ≫= f) s = Run (final (m s)) (printed (m s)) (Raise e).
Proof. intros E. unfold mbind, cmd_bind. by rewrite E. Qed.

Lemma bind_exhausted (m : cmd A) (f : A -> cmd B) (s : State.t) :
  result (m s) = Exhausted ->
  (m ≫= f) s = Run (final (m s)) (printed (m s)) Exhausted.
Proof. intros E. unfold mbind, cmd_bind. by rewrite E. Qed.

Lemma lift_bind (o : outcome A) (f : A -> cmd B) (s : State.t) :
  (lift o ≫= f) s =
  match o with
  | Ok a => f a s
  | Raise e => Run s [] (Raise e)
  | Exhausted => Run s [] Exhausted
  end.
Proof.
  unfold mbind, cmd_bind, lift; simpl.
  destruct o; simpl; try done. by destruct (f a s).
Qed.

Lemma call_bind (r : list string * outcome A) (f : A -> cmd B) (s : State.t) :
  (call r ≫= f) s =
  match r.2 with
  | Ok a => after r.1 (f a s)
  | Raise e => Run s r.1 (Raise e)
  | Exhausted => Run s r.1 Exhausted
  end.
Proof. unfold mbind, cmd_bind, call; simpl. by destruct r as [out []]. Qed.

End Monad.

Lemma get_bind {B} (f : State.t -> cmd B) (s : State.t) : (get ≫= f) s = f s s.
Proof. unfold mbind, cmd_bind, get; simpl. by destruct (f s s). Qed.

Lemma print_bind {B} (line : string) (f : unit -> cmd B) (s : State.t) :
  (print line ≫= f) s = after [line] (f tt s).
Proof. reflexivity. Qed.

Lemma modify_bind {B} (g : State.t -> State.t) (f : unit -> cmd B) (s : State.t) :
  (modify g ≫= f) s = f tt (g s).
Proof. unfold mbind, cmd_bind, modify; simpl. by destruct (f tt (g s)). Qed.

Lemma each_cons {A} (f : A -> cmd unit) (x : A) (xs : list A) (s : State.t) :
  result (f x s) = Ok tt ->
  each f (x :: xs) s = after (printed (f x s)) (each f xs (final (f x s))).
Proof. intros E. simpl. by rewrite (bind_ok _ _ _ tt). Qed.

Lemma each_raise {A} (f : A -> cmd unit) (x : A) (xs : list A) (s : State.t) (e : exn) :
  result (f x s) = Raise e ->
  each f (x :: xs) s = Run (final (f x s)) (printed (f x s)) (Raise e).
Proof. intros E. simpl. by rewrite (bind_raise _ _ _ e). Qed.

(** A dictionary written from a list of pairs holds, under each key, the
    value of the pair of that key that comes last in the list. *)

Lemma update_snoc {V} (d : gmap string V) (pairs : list (string * V)) (kv : string * V) :
  update d (pairs ++ [kv]) = <[kv.1 := kv.2]> (update d pairs).
Proof. unfold update. by rewrite fold_left_app. Qed.

Lemma last_written_snoc {V} (k : string) (pairs : list (string * V)) (kv : string * V) :
  last_written k (pairs ++ [kv]) =
  if decide (kv.1 = k) then Some kv.2 else last_written k pairs.
Proof.
  unfold last_written. rewrite filter_app, filter_cons, filter_nil.
  destruct (decide (kv.1 = k)) as [E|E].
  - by rewrite last_snoc.
  - by rewrite app_nil_r.
Qed.

Lemma update_lookup {V} (d : gmap string V) (pairs : list (string * V)) (k : string) :
  update d pairs !! k =
  match last_written k pairs with
  | Some v => Some v
  | None => d !! k
  end.
Proof.
  induction pairs as [|kv pairs IH] using rev_ind; [done |].
  rewrite update_snoc, last_written_snoc.
  destruct (decide (kv.1 = k)) as [<-|E].
  - by rewrite lookup_insert_eq.
  - by rewrite lookup_insert_ne.
Qed.

Lemma dict_lookup {V} (pairs : list (string * V)) (k : string) :
  dict pairs !! k = last_written k pairs.
Proof.
  unfold dict. rewrite update_lookup, lookup_empty.
  by destruct (last_written k pairs).
Qed.

Lemma last_written_later {V} (k : string) (v : V) (before later : list (string * V)) :
  k ∉ later.*1 -> last_written k (before ++ (k, v) :: later) = Some v.
Proof.
  induction later as [|kv later IH] using rev_ind; intros Hk.
  - rewrite last_written_snoc. simpl. by rewrite decide_True.
  - rewrite fmap_app, not_elem_of_app in Hk. destruct Hk as [Hk Hkv].
    replace (before ++ (k, v) :: later ++ [kv])
      with ((before ++ (k, v) :: later) ++ [kv]) by by rewrite <- app_assoc.
    rewrite last_written_snoc, decide_False; [by apply IH |].
    intros E. apply Hkv. simpl. rewrite E. by apply list_elem_of_singleton.
Qed.

Section Forms.

Context `{Parser} `{Checker} `{World}.

Variable depth : nat.

(** A form whose handler returns is followed by the forms after it. *)

Lemma each_evaluate_next (dopath : string -> cmd unit) (head : sexp)
    (tail rest : list sexp) (form : string) (handler : list sexp -> cmd unit)
    (s : State.t) :
  symbol head = Ok form ->
  assoc form (forms depth dopath) = Some handler ->
  result (handler tail s) = Ok tt ->
  each (evaluate depth dopath) (SList (head :: tail) :: rest) s =
  after (printed (handler tail s))
        (each (evaluate depth dopath) rest (final (handler tail s))).
Proof.
  intros Hsym Hform Hres.
  assert (E : evaluate depth dopath (SList (head :: tail)) s = handler tail s).
  { unfold evaluate. rewrite lift_bind, Hsym, Hform. done. }
  rewrite each_cons; rewrite E; done.
Qed.

(** C10: a theorem or lemma form with nothing after its head does
    nothing: it prints no line, raises nothing and leaves the state,
    and the forms after it are processed from that same state. *)

Theorem empty_theorem_ignored (dopath : string -> cmd unit) (head : sexp)
    (form : string) (rest : list sexp) (s : State.t) :
  symbol head = Ok form ->
  form = "theorem" \/ form = "lemma" ->
  theorem depth [] s = Run s [] (Ok tt) /\
  evaluate depth dopath (SList [head]) s = Run s [] (Ok tt) /\
  each (evaluate depth dopath) (SList [head] :: rest) s =
  each (evaluate depth dopath) rest s.
Proof.
  intros Hsym Hform.
  assert (Ht : assoc form (forms depth dopath) = Some (theorem depth)).
  { by destruct Hform as [-> | ->]. }
  split; [done |]. split.
  - unfold evaluate. rewrite lift_bind, Hsym, Ht. done.
  - rewrite (each_evaluate_next _ _ _ _ form (theorem depth)); try done.
    simpl. by rewrite after_nil.
Qed.

(** C9: an infix form for an operator that is registered prints the
    error line, changes nothing in the state, and returns; whatever the
    form, the precedence of a registered operator stays as it was. *)

Theorem infix_registered_operator_kept (ident : sexp) (p old : Z)
    (name : string) (s : State.t) :
  symbol ident = Ok name ->
  State.infix s !! name = Some old ->
  infix [ident; Int p] s = Run s [operator_defined name old] (Ok tt) /\
  forall (expr : list sexp),
    State.infix (final (infix expr s)) !! name = Some old.
Proof.
  intros Hsym Hold. split.
  - unfold infix. rewrite lift_bind, Hsym, get_bind, Hold. done.
  - intros expr. unfold infix.
    destruct expr as [|i [|q [|? ?]]]; try done.
    destruct q; try done.
    rewrite lift_bind. destruct (symbol i) as [op| |]; try done.
    rewrite get_bind. destruct (State.infix s !! op) eqn:E; try done.
    unfold modify; simpl. rewrite lookup_insert_ne; [done | congruence].
Qed.

End Forms.

Section TheoremForm.

Context `{Parser} `{Checker} `{World}.

Variable depth : nat.

Lemma theorem_locals_final (bound : list Term) (proofs : list (string * ProofTerm.t))
    (τctx : gmap string InferenceRule.t) (s : State.t) :
  final (theorem_locals bound τctx proofs s) = s.
Proof.
  revert τctx. induction proofs as [|[x xs] rest IH]; intros τctx; simpl; [done |].
  rewrite call_bind. destruct (infer τctx bound xs) as [out [τ|e|]]; simpl; auto.
Qed.

Lemma theorem_locals_result (bound : list Term) (proofs : list (string * ProofTerm.t))
    (τctx τctx' : gmap string InferenceRule.t) (s : State.t) :
  result (theorem_locals bound τctx proofs s) = Ok τctx' <->
  locals_inferred bound τctx proofs τctx'.
Proof.
  revert τctx. induction proofs as [|[x xs] rest IH]; intros τctx; simpl.
  - split.
    + intros [= ->]. constructor.
    + inversion 1. done.
  - rewrite call_bind. split.
    + destruct (infer τctx bound xs) as [out [τ|e|]] eqn:E; simpl; try done.
      intros Hr. econstructor; [exact E |]. by apply IH.
    + inversion 1 as [|? ? ? ? out τ ? E Hrest]; subst.
      rewrite E; simpl. by apply IH.
Qed.

Lemma verify_final (bound : list Term) (τctx : gmap string InferenceRule.t)
    (proofs : list (string * ProofTerm.t)) (conclusion : Term)
    (proof : ProofTerm.t) (s : State.t) :
  final (verify bound τctx proofs conclusion proof s) = s.
Proof.
  unfold verify, mbind, cmd_bind. pose proof (theorem_locals_final bound proofs τctx s) as F.
  destruct (theorem_locals bound τctx proofs s) as [s' out [τctx'| |]]; simpl in *; done.
Qed.

Lemma verify_result (bound : list Term) (τctx : gmap string InferenceRule.t)
    (proofs : list (string * ProofTerm.t)) (conclusion : Term)
    (proof : ProofTerm.t) (s : State.t) :
  result (verify bound τctx proofs conclusion proof s) = Ok tt <->
  exists τctx', locals_inferred bound τctx proofs τctx' /\
                (check τctx' bound conclusion proof).2 = Ok tt.
Proof.
  unfold verify, mbind, cmd_bind.
  pose proof (theorem_locals_result bound proofs τctx) as R.
  destruct (theorem_locals bound τctx proofs s) as [s' out [τctx'| |]] eqn:E; simpl.
  - split.
    + intros Hc. exists τctx'. split; [| done].
      apply (R τctx' s). by rewrite E.
    + intros (τ2 & Hl & Hc). apply (R τ2 s) in Hl. rewrite E in Hl.
      simpl in Hl. by injection Hl as ->.
  - split; [done |]. intros (τ2 & Hl & _). apply (R τ2 s) in Hl.
    by rewrite E in Hl.
  - split; [done |]. intros (τ2 & Hl & _). apply (R τ2 s) in Hl.
    by rewrite E in Hl.
Qed.

Lemma preamble_nonempty (s : State.t) (expr : list sexp) r :
  preamble depth s expr = Ok r -> nonempty expr = true.
Proof. by destruct expr. Qed.

(** What a theorem form with a new name does, by the result of its
    verification. *)

Lemma theorem_fresh (expr : list sexp) (s : State.t) (name : string)
    (conclusion : Term) (names : list string) (premises : list Term)
    (body locals : list (string * ProofTerm.t)) (label : string)
    (proof : ProofTerm.t) :
  preamble depth s expr = Ok (name, conclusion, names, premises, body) ->
  pop body = Ok (locals, (label, proof)) ->
  State.context s !! name = None ->
  let v := verify (State.bound s) (local_context (State.context s) names premises)
             locals conclusion proof s in
  theorem depth expr s =
  match result v with
  | Ok _ =>
      Run (State.set_context
             (<[name := InferenceRule.mk premises conclusion]> (State.context s)) s)
          (printed v ++ [checked name]) (Ok tt)
  | Raise (VerificationError message) =>
      Run s (printed v ++ [not_checked name; "Error: " +:+ message]) (Ok tt)
  | Raise e => Run s (printed v) (Raise e)
  | Exhausted => Run s (printed v) Exhausted
  end.
Proof.
  intros Hpre Hpop Hfresh v. unfold theorem.
  rewrite (preamble_nonempty _ _ _ Hpre), get_bind, lift_bind, Hpre. simpl.
  rewrite lift_bind, Hpop. simpl.
  destruct (decide (is_Some (State.context s !! name))) as [[? Hin]|_];
    [congruence |].
  pose proof (verify_final (State.bound s)
    (local_context (State.context s) names premises) locals conclusion proof s) as F.
  subst v. unfold try_except.
  destruct (result (verify _ _ _ _ _ s)) as [[]|e|] eqn:E.
  - rewrite (bind_ok _ _ s tt E), F. done.
  - rewrite (bind_raise _ _ s e E), F. destruct e; done.
  - rewrite (bind_exhausted _ _ s E), F. done.
Qed.

Lemma theorem_known (expr : list sexp) (s : State.t) (name : string)
    (conclusion : Term) (names : list string) (premises : list Term)
    (body locals : list (string * ProofTerm.t)) (last : string * ProofTerm.t)
    (rule : InferenceRule.t) :
  preamble depth s expr = Ok (name, conclusion, names, premises, body) ->
  pop body = Ok (locals, last) ->
  State.context s !! name = Some rule ->
  theorem depth expr s = Run s [already_defined name] (Ok tt).
Proof.
  intros Hpre Hpop Hin. unfold theorem.
  rewrite (preamble_nonempty _ _ _ Hpre), get_bind, lift_bind, Hpre. simpl.
  rewrite lift_bind, Hpop. destruct last as [label proof]. simpl.
  destruct (decide (is_Some (State.context s !! name))) as [_|Hn]; [done |].
  destruct Hn. by exists rule.
Qed.

(** C1: a theorem or lemma form whose verification raises a verification
    error (the kernel's unknown rule, arity mismatch, premise mismatch
    and conclusion mismatch) prints a diagnostic: that the theorem has
    not been checked, with the error, or, when its name is taken, that
    it is defined already.  The state, and with it the context, is
    exactly as it was, so a name that was not in the context has not
    entered it; the form returns, and the forms after it are processed
    from the same state. *)

Theorem failed_theorem_not_entered (expr : list sexp) (s : State.t)
    (name : string) (conclusion : Term) (names : list string)
    (premises : list Term) (body locals : list (string * ProofTerm.t))
    (label : string) (proof : ProofTerm.t) (message : string) :
  preamble depth s expr = Ok (name, conclusion, names, premises, body) ->
  pop body = Ok (locals, (label, proof)) ->
  let v := verify (State.bound s) (local_context (State.context s) names premises)
             locals conclusion proof s in
  let diagnostic :=
    if decide (is_Some (State.context s !! name)) then [already_defined name]
    else printed v ++ [not_checked name; "Error: " +:+ message] in
  result v = Raise (VerificationError message) ->
  theorem depth expr s = Run s diagnostic (Ok tt) /\
  diagnostic <> [] /\
  (State.context s !! name = None ->
   State.context (final (theorem depth expr s)) !! name = None) /\
  forall (dopath : string -> cmd unit) (head : sexp) (form : string)
         (rest : list sexp),
    symbol head = Ok form ->
    form = "theorem" \/ form = "lemma" ->
    each (evaluate depth dopath) (SList (head :: expr) :: rest) s =
    after diagnostic (each (evaluate depth dopath) rest s).
Proof.
  intros Hpre Hpop v diagnostic Hv.
  assert (E : theorem depth expr s = Run s diagnostic (Ok tt)).
  { subst diagnostic.
    destruct (decide (is_Some (State.context s !! name))) as [[rule Hin]|Hnew].
    - apply (theorem_known _ _ _ _ _ _ _ _ _ _ Hpre Hpop Hin).
    - assert (State.context s !! name = None) as Hfresh.
      { destruct (State.context s !! name) eqn:E; [| done].
        destruct Hnew. by eexists. }
      rewrite (theorem_fresh _ _ _ _ _ _ _ _ _ _ Hpre Hpop Hfresh).
      fold v. by rewrite Hv. }
  split; [done |]. split.
  { subst diagnostic. destruct (decide _); [done |].
    intros Hnil. apply app_eq_nil in Hnil. by destruct Hnil. }
  split; [by rewrite E |].
  intros dopath head form rest Hsym Hform.
  rewrite (each_evaluate_next depth _ _ _ _ form (theorem depth));
    rewrite ?E; try done.
  by destruct Hform as [-> | ->].
Qed.

(** C5: in a theorem block with a new name, the local context is the
    context overwritten by the premises as rules without premises; the
    theorem enters the global context exactly when the local lemmas
    can be inferred one after the other, each entering the local
    context under its name, and the final proof then checks against
    the stated conclusion; then the global context gains the theorem
    and nothing else, and otherwise the state is as it was. *)

Theorem theorem_block_in_order (expr : list sexp) (s : State.t)
    (name : string) (conclusion : Term) (names : list string)
    (premises : list Term) (body locals : list (string * ProofTerm.t))
    (label : string) (proof : ProofTerm.t) :
  preamble depth s expr = Ok (name, conclusion, names, premises, body) ->
  pop body = Ok (locals, (label, proof)) ->
  State.context s !! name = None ->
  let τctx := local_context (State.context s) names premises in
  let verified :=
    exists τctx', locals_inferred (State.bound s) τctx locals τctx' /\
                  (check τctx' (State.bound s) conclusion proof).2 = Ok tt in
  let r := theorem depth expr s in
  (forall k, τctx !! k =
     match last_written k (zip names (InferenceRule.mk [] <$> premises)) with
     | Some hypothesis => Some hypothesis
     | None => State.context s !! k
     end) /\
  (is_Some (State.context (final r) !! name) <-> verified) /\
  (verified ->
   final r = State.set_context
     (<[name := InferenceRule.mk premises conclusion]> (State.context s)) s /\
   result r = Ok tt) /\
  (~ verified -> final r = s).
Proof.
  intros Hpre Hpop Hfresh τctx verified r.
  pose proof (verify_result (State.bound s) τctx locals conclusion proof s) as V.
  fold verified in V.
  assert (E := theorem_fresh _ _ _ _ _ _ _ _ _ _ Hpre Hpop Hfresh).
  cbv zeta in E. fold τctx in E, V. fold r in E.
  split; [intros k; apply update_lookup |].
  destruct (result (verify (State.bound s) τctx locals conclusion proof s))
    as [[]|e|] eqn:R.
  - assert (verified) as Hv by by apply V.
    rewrite E. simpl. rewrite lookup_insert_eq. repeat split; done.
  - assert (~ verified) as Hv by (rewrite <- V; done).
    assert (final r = s) as F by (rewrite E; by destruct e).
    rewrite F, Hfresh. repeat split; try done.
    all: try by intros [? [=]].
  - assert (~ verified) as Hv by (rewrite <- V; done).
    assert (final r = s) as F by by rewrite E.
    rewrite F, Hfresh. repeat split; try done.
    all: try by intros [? [=]].
Qed.

End TheoremForm.

Section ContextGrows.

Context `{Parser} `{Checker} `{World}.

Variable depth : nat.

Lemma keeps_bind {A B} (m : cmd A) (f : A -> cmd B) :
  keeps_context m -> (forall a, keeps_context (f a)) -> keeps_context (m ≫= f).
Proof.
  intros Hm Hf s. unfold mbind, cmd_bind. specialize (Hm s).
  destruct (result (m s)) as [a| |]; simpl; try done.
  etrans; [exact Hm | apply Hf].
Qed.

Lemma keeps_bind_at {A B} (m : cmd A) (f : A -> cmd B) (s : State.t) :
  State.context s ⊆ State.context (final (m s)) ->
  (forall a, keeps_context (f a)) ->
  State.context s ⊆ State.context (final ((m ≫= f) s)).
Proof.
  intros Hm Hf. unfold mbind, cmd_bind.
  destruct (result (m s)) as [a| |]; simpl; try done.
  etrans; [exact Hm | apply Hf].
Qed.

Lemma keeps_reads_only {A} (c : cmd A) : reads_only c -> keeps_context c.
Proof. intros Hc s. by rewrite Hc. Qed.

Lemma keeps_lift {A} (o : outcome A) : keeps_context (lift o).
Proof. by apply keeps_reads_only. Qed.

Lemma keeps_print (line : string) : keeps_context (print line).
Proof. by apply keeps_reads_only. Qed.

Lemma keeps_each {A} (f : A -> cmd unit) (xs : list A) :
  (forall x, keeps_context (f x)) -> keeps_context (each f xs).
Proof.
  intros Hf. induction xs as [|x xs IH]; simpl.
  - by apply keeps_reads_only.
  - apply keeps_bind; auto.
Qed.

(** Writing a rule under a name that the context does not have. *)

Lemma insert_fresh_grows (s : State.t) (name : string) (rule : InferenceRule.t) :
  ~ is_Some (State.context s !! name) ->
  State.context s ⊆
  State.context (State.set_context (<[name := rule]> (State.context s)) s).
Proof.
  intros Hn. simpl. apply insert_subseteq.
  destruct (State.context s !! name) eqn:E; [| done].
  destruct Hn. by eexists.
Qed.

Lemma postulate_loop_keeps (n : nat) :
  forall (expr : list sexp) (premises : list Term),
    length expr <= n -> keeps_context (postulate_loop depth premises expr).
Proof.
  induction n as [|n IH]; intros expr premises Hlen.
  - destruct expr; simpl in Hlen; [| lia]. simpl.
    destruct (nonempty premises); by apply keeps_reads_only.
  - destruct expr as [|elem expr1]; simpl.
    { destruct (nonempty premises); by apply keeps_reads_only. }
    simpl in Hlen. destruct (isseparator elem).
    + destruct expr1 as [|nm expr2]; [apply keeps_lift |].
      apply keeps_bind; [apply keeps_lift |]. intros name.
      destruct expr2 as [|c expr3]; [apply keeps_lift |].
      intros s. rewrite get_bind, lift_bind.
      destruct (parseterm depth s c) as [conclusion| |]; try done.
      apply keeps_bind_at; [| intros; apply IH; simpl in Hlen; lia].
      destruct (decide (is_Some (State.context s !! name))) as [Hin|Hnew].
      * done.
      * rewrite modify_bind. simpl.
        apply (insert_fresh_grows s name _ Hnew).
    + intros s. rewrite get_bind, lift_bind.
      destruct (parseterm depth s elem) as [τ| |]; try done.
      apply IH. lia.
Qed.

Lemma postulate_keeps (expr : list sexp) : keeps_context (postulate depth expr).
Proof. by apply (postulate_loop_keeps (length expr)). Qed.

Lemma theorem_keeps (expr : list sexp) : keeps_context (theorem depth expr).
Proof.
  intros s.
  destruct (preamble depth s expr)
    as [[[[[name conclusion] names] premises] body]| |] eqn:Hpre.
  - destruct (pop body) as [[locals [label proof]]| |] eqn:Hpop.
    + destruct (State.context s !! name) as [rule|] eqn:Hin.
      * by rewrite (theorem_known depth _ _ _ _ _ _ _ _ _ _ Hpre Hpop Hin).
      * rewrite (theorem_fresh depth _ _ _ _ _ _ _ _ _ _ Hpre Hpop Hin).
        destruct (result _) as [[]|[]|]; simpl; try done.
        by apply insert_subseteq.
    + unfold theorem. destruct (nonempty expr); [| done].
      rewrite get_bind, lift_bind, Hpre. simpl. by rewrite lift_bind, Hpop.
    + unfold theorem. destruct (nonempty expr); [| done].
      rewrite get_bind, lift_bind, Hpre. simpl. by rewrite lift_bind, Hpop.
  - unfold theorem. destruct (nonempty expr); [| done].
    by rewrite get_bind, lift_bind, Hpre.
  - unfold theorem. destruct (nonempty expr); [| done].
    by rewrite get_bind, lift_bind, Hpre.
Qed.

Lemma infix_keeps (expr : list sexp) : keeps_context (infix expr).
Proof.
  intros s. unfold infix.
  destruct expr as [|ident [|prec [|? ?]]]; try done.
  destruct prec; try done.
  rewrite lift_bind. destruct (symbol ident); try done.
  rewrite get_bind. by destruct (State.infix s !! a).
Qed.

Lemma variables_keeps (expr : list sexp) : keeps_context (variables expr).
Proof.
  intros s. unfold variables. rewrite lift_bind.
  by destruct (maplist symbol expr).
Qed.

Lemma bound_keeps (expr : list sexp) : keeps_context (bound expr).
Proof.
  intros s. unfold bound. rewrite get_bind, lift_bind.
  by destruct (maplist (term s) expr).
Qed.

Lemma define_keeps (expr : list sexp) : keeps_context (define depth expr).
Proof.
  intros s. unfold define.
  destruct expr as [|pattern [|body [|? ?]]]; try done.
  rewrite get_bind, lift_bind. destruct (term s pattern); try done.
  rewrite lift_bind. by destruct (parseterm depth s body).
Qed.

Section NestedFiles.

Variable dopath' : string -> cmd unit.

Hypothesis dopath_keeps : forall path, keeps_context (dopath' path).

Lemma include_keeps (exprs : list sexp) : keeps_context (include dopath' exprs).
Proof.
  apply keeps_each. intros expr. apply keeps_bind; [apply keeps_lift | done].
Qed.

Lemma forms_keep (form : string) (handler : list sexp -> cmd unit) :
  assoc form (forms depth dopath') = Some handler ->
  forall tail, keeps_context (handler tail).
Proof.
  unfold forms. simpl.
  repeat (destruct (String.eqb form _);
          [intros [= <-];
           auto using postulate_keeps, theorem_keeps, infix_keeps,
             variables_keeps, bound_keeps, define_keeps, include_keeps |]).
  done.
Qed.

Lemma evaluate_keeps (expr : sexp) : keeps_context (evaluate depth dopath' expr).
Proof.
  destruct expr as [| |[|head tail]|]; try apply keeps_lift.
  unfold evaluate. apply keeps_bind; [apply keeps_lift |]. intros form.
  destruct (assoc form (forms depth dopath')) eqn:E; [| apply keeps_lift].
  by apply (forms_keep form).
Qed.

Lemma doexprs_keeps (text : string) : keeps_context (doexprs depth dopath' text).
Proof.
  unfold doexprs. apply keeps_bind; [by intros s |]. intros _.
  apply keeps_bind; [apply keeps_lift |]. intros exprs.
  apply keeps_each, evaluate_keeps.
Qed.

Lemma dofile_keeps (filename : string) : keeps_context (dofile depth dopath' filename).
Proof.
  unfold dofile. apply keeps_bind; [apply keeps_print |]. intros _.
  apply keeps_bind; [apply keeps_lift |]. intros text. apply doexprs_keeps.
Qed.

End NestedFiles.

Lemma dopath_keeps_context (fuel : nat) (path : string) :
  keeps_context (dopath depth fuel path).
Proof.
  revert path. induction fuel as [|fuel IH]; intros path; simpl.
  - destruct (negb (path_exists path)); [apply keeps_print |].
    destruct (path_isdir path); [apply keeps_print |].
    apply dofile_keeps. intros p. apply keeps_lift.
  - destruct (negb (path_exists path)); [apply keeps_print |].
    destruct (path_isdir path); [apply keeps_print |].
    by apply dofile_keeps.
Qed.

(** C3: whatever a top-level form is and however it ends, a rule that
    the context held before the form is held after it, under the same
    name and unchanged; the same is true of a file, of a list of files
    and of the whole run. *)

Theorem context_grows_monotonically (fuel : nat) (expr : sexp) (s : State.t)
    (name : string) (rule : InferenceRule.t) :
  State.context s !! name = Some rule ->
  State.context (final (evaluate depth (dopath depth fuel) expr s)) !! name
    = Some rule /\
  (forall path,
     State.context (final (dopath depth fuel path s)) !! name = Some rule) /\
  (forall filenames,
     State.context (final (each (dopath depth fuel) filenames s)) !! name
       = Some rule).
Proof.
  intros Hin. repeat split; intros.
  - eapply lookup_weaken; [exact Hin |].
    apply evaluate_keeps, dopath_keeps_context.
  - eapply lookup_weaken; [exact Hin |]. apply dopath_keeps_context.
  - eapply lookup_weaken; [exact Hin |].
    apply keeps_each, dopath_keeps_context.
Qed.

End ContextGrows.

Section Redefinition.

Context `{Parser} `{Checker} `{World}.

Variable depth : nat.

(** C4: when the name of a postulate group or of a theorem is in the
    context, the redefinition is reported, the state stays as it is, and
    what follows is processed: the groups after it in a postulate form,
    the forms after a theorem form.  A later lookup of the name yields
    the rule it had. *)

Theorem redefinition_keeps_original (s : State.t) (name : string)
    (rule : InferenceRule.t) :
  State.context s !! name = Some rule ->
  (forall (collected : list Term) (sep n c : sexp) (rest : list sexp)
          (conclusion : Term),
     isseparator sep = true ->
     symbol n = Ok name ->
     parseterm depth s c = Ok conclusion ->
     let r := postulate_loop depth collected (sep :: n :: c :: rest) s in
     r = after [already_postulated name] (postulate_loop depth [] rest s) /\
     State.context (final r) !! name = Some rule) /\
  (forall (expr : list sexp) (conclusion : Term) (names : list string)
          (premises : list Term) (body locals : list (string * ProofTerm.t))
          (last : string * ProofTerm.t),
     preamble depth s expr = Ok (name, conclusion, names, premises, body) ->
     pop body = Ok (locals, last) ->
     theorem depth expr s = Run s [already_defined name] (Ok tt) /\
     forall (dopath : string -> cmd unit) (head : sexp) (form : string)
            (rest : list sexp),
       symbol head = Ok form ->
       form = "theorem" \/ form = "lemma" ->
       each (evaluate depth dopath) (SList (head :: expr) :: rest) s =
       after [already_defined name] (each (evaluate depth dopath) rest s)).
Proof.
  intros Hin. split.
  - intros collected sep n c rest conclusion Hsep Hsym Hparse r.
    assert (E : r = after [already_postulated name]
                      (postulate_loop depth [] rest s)).
    { subst r. simpl. rewrite Hsep, lift_bind, Hsym, get_bind, lift_bind, Hparse.
      destruct (decide (is_Some (State.context s !! name))) as [_|Hn].
      - done.
      - destruct Hn. by exists rule. }
    split; [done |]. rewrite E. simpl.
    eapply lookup_weaken; [exact Hin |].
    apply (postulate_loop_keeps depth (length rest)). done.
  - intros expr conclusion names premises body locals last Hpre Hpop.
    assert (E := theorem_known depth _ _ _ _ _ _ _ _ _ _ Hpre Hpop Hin).
    split; [done |]. intros dopath head form rest Hsym Hform.
    rewrite (each_evaluate_next depth _ _ _ _ form (theorem depth));
      rewrite ?E; try done.
    by destruct Hform as [-> | ->].
Qed.

End Redefinition.

Section Substitutions.

Context `{Parser} `{Checker}.

Variable depth : nat.

Lemma genenv_binds (curr : State.t) (n : nat) :
  forall (items : list sexp) (written : list (string * Term)),
    length items <= n ->
    genenv depth curr items = Ok written <-> binds depth curr items written.
Proof.
  induction n as [|n IH]; intros items written Hlen.
  - destruct items; simpl in Hlen; [| lia]. split.
    + intros [= <-]. constructor.
    + by inversion 1.
  - destruct items as [|v [|s [|e rest]]]; simpl.
    + split; [intros [= <-]; constructor | by inversion 1].
    + split; [| by inversion 1]. by destruct (symbol v).
    + split; [| by inversion 1].
      destruct (symbol v); simpl; try done. by destruct (symbol s).
    + split.
      * destruct (symbol v) as [var| |] eqn:Ev; simpl; try done.
        destruct (symbol s) as [sep| |] eqn:Es; simpl; try done.
        destruct (parseterm depth curr e) as [τ| |] eqn:Ee; simpl; try done.
        destruct (decide (sep ∈ separators)) as [Hsep|]; try done.
        destruct (genenv depth curr rest) as [more| |] eqn:Er; simpl; try done.
        intros [= <-]. econstructor; eauto.
        apply IH; [simpl in Hlen; lia | done].
      * inversion 1 as [|? ? ? ? var sep τ more Ev Es Hsep Ee Hrest]; subst.
        rewrite Ev; simpl. rewrite Es; simpl. rewrite Ee; simpl.
        destruct (decide (sep ∈ separators)); [| done].
        apply IH in Hrest; [| simpl in Hlen; lia]. by rewrite Hrest.
Qed.

(** C7: the substitution map of a parsed proof term with a bracketed
    list holds, under every name, the binding of that name which the
    list writes last, whatever bindings of the name come before it; a
    name is a key of the map once. *)

Theorem substitution_last_binding_wins (curr : State.t) (edge : sexp)
    (items args : list sexp) (p : ProofTerm.t) :
  proof depth curr (SList (edge :: Bracket items :: args)) = Ok p ->
  exists written : list (string * Term),
    binds depth curr items written /\
    (forall k, ProofTerm.substitutions p !! k = last_written k written) /\
    (forall k τ before later,
       written = before ++ (k, τ) :: later -> k ∉ later.*1 ->
       ProofTerm.substitutions p !! k = Some τ) /\
    NoDup (map_to_list (ProofTerm.substitutions p)).*1.
Proof.
  unfold proof. simpl.
  destruct (symbol edge) as [name| |]; simpl; try done.
  destruct (maplist argument args) as [arguments| |]; simpl; try done.
  destruct (genenv depth curr items) as [written| |] eqn:E; simpl; try done.
  intros [= <-]. exists written. simpl. repeat split.
  - by apply (genenv_binds curr (length items)).
  - intros k. apply dict_lookup.
  - intros k τ before later -> Hk. rewrite dict_lookup.
    by apply last_written_later.
  - apply NoDup_fst_map_to_list.
Qed.

End Substitutions.

Section Expansion.

Context `{Checker}.

Lemma macroexpand_head_first (defs : list (Term * Term)) (t : Term) :
  macroexpand_head defs t = head_rewrite defs t.
Proof.
  unfold head_rewrite.
  induction defs as [|[pattern body] rest IH]; simpl; [done |].
  destruct (match_ ∅ pattern t) as [matched substs] eqn:E; simpl.
  destruct matched; [| done]. by rewrite E.
Qed.

Lemma maplist_Forall2 {A B} (f : A -> outcome B) (xs : list A) (ys : list B) :
  maplist f xs = Ok ys <-> Forall2 (fun x y => f x = Ok y) xs ys.
Proof.
  revert ys. induction xs as [|x xs IH]; intros ys; simpl.
  - split; [intros [= <-]; constructor | by inversion 1].
  - split.
    + destruct (f x) as [y| |] eqn:E; simpl; try done.
      destruct (maplist f xs) as [ys'| |]; simpl; try done.
      intros [= <-]. constructor; [done | by apply IH].
    + inversion 1 as [|? y ? ys' E Hrest]; subst.
      rewrite E; simpl. apply IH in Hrest. by rewrite Hrest.
Qed.

(** More fuel does not change a result. *)

Lemma macroexpand_more_fuel (curr : State.t) (fuel : nat) :
  forall (t t' : Term) (fuel' : nat),
    macroexpand fuel curr t = Ok t' -> fuel <= fuel' ->
    macroexpand fuel' curr t = Ok t'.
Proof.
  induction fuel as [|fuel IH]; intros t t' fuel' E Hle; [done |].
  destruct fuel' as [|fuel']; [lia |]. simpl in *.
  destruct (macroexpand_head (State.defs curr) t) as [| |children|]; try done.
  destruct (maplist (macroexpand fuel curr) children) as [cs| |] eqn:Ec;
    simpl in E; try done.
  apply maplist_Forall2 in Ec.
  assert (maplist (macroexpand fuel' curr) children = Ok cs) as ->; [| done].
  apply maplist_Forall2. eapply Forall2_impl; [exact Ec |].
  intros x y Hxy. apply (IH x y fuel' Hxy). lia.
Qed.

(** Induction over an expansion, with the hypothesis for every child. *)

Lemma expands_children_ind (curr : State.t) (P : Term -> Term -> Prop) :
  (forall t children children',
     head_rewrite (State.defs curr) t = Symtree children ->
     Forall2 (expands curr) children children' ->
     Forall2 P children children' ->
     P t (Symtree children')) ->
  (forall t t',
     head_rewrite (State.defs curr) t = t' ->
     (forall children, t' <> Symtree children) ->
     P t t') ->
  forall t t', expands curr t t' -> P t t'.
Proof.
  intros Hchildren Hleaf. fix IH 3.
  intros t t' [t0 children children' Hh Hf | t0 t0' Hh Hn].
  - apply (Hchildren _ _ _ Hh Hf).
    clear Hh. revert children children' Hf. fix IHl 3.
    intros children children' [|x y l l' Hxy Hl]; constructor.
    + apply IH, Hxy.
    + apply IHl, Hl.
  - by apply Hleaf.
Qed.

Lemma Forall2_common_fuel (curr : State.t) (xs ys : list Term) :
  Forall2 (fun x y => exists fuel, macroexpand fuel curr x = Ok y) xs ys ->
  exists fuel, Forall2 (fun x y => macroexpand fuel curr x = Ok y) xs ys.
Proof.
  induction 1 as [|x y xs ys [n Hn] _ [m Hm]].
  - exists 0. constructor.
  - exists (n `max` m). constructor.
    + apply (macroexpand_more_fuel curr n); [done | lia].
    + eapply Forall2_impl; [exact Hm |].
      intros a b Hab. apply (macroexpand_more_fuel curr m); [done | lia].
Qed.

Lemma macroexpand_sound (curr : State.t) (fuel : nat) :
  forall t t', macroexpand fuel curr t = Ok t' -> expands curr t t'.
Proof.
  induction fuel as [|fuel IH]; intros t t' E; [done |]. simpl in E.
  rewrite macroexpand_head_first in E.
  destruct (head_rewrite (State.defs curr) t) as [n|n|children|] eqn:Hh.
  - injection E as <-. by apply expands_leaf.
  - injection E as <-. by apply expands_leaf.
  - destruct (maplist (macroexpand fuel curr) children) as [cs| |] eqn:Ec;
      simpl in E; try done.
    injection E as <-. apply (expands_children curr t children cs Hh).
    apply maplist_Forall2 in Ec. eapply Forall2_impl; [exact Ec |]. auto.
  - injection E as <-. by apply expands_leaf.
Qed.

Lemma macroexpand_complete (curr : State.t) :
  forall t t', expands curr t t' -> exists fuel, macroexpand fuel curr t = Ok t'.
Proof.
  apply (expands_children_ind curr
           (fun t t' => exists fuel, macroexpand fuel curr t = Ok t')).
  - intros t children children' Hh _ IH.
    apply Forall2_common_fuel in IH. destruct IH as [fuel IH].
    exists (S fuel). simpl. rewrite macroexpand_head_first, Hh.
    apply maplist_Forall2 in IH. by rewrite IH.
  - intros t t' Hh Hn.
    exists 1. simpl. rewrite macroexpand_head_first, Hh.
    destruct t'; try done. by destruct (Hn children).
Qed.

(** C2: [macroexpand] returns a term exactly when that term is an
    expansion of its argument: one head rewrite by the first definition
    that matches, in declaration order and from the empty substitution
    (no rewrite when none matches), then, when the result is a
    composite, the composite of its children expanded in order, and
    otherwise the result as it is.  The loop of the source computes that
    head rewrite, and nothing the expansion does raises. *)

Theorem macroexpand_one_head_rewrite (curr : State.t) (t : Term) :
  macroexpand_head (State.defs curr) t = head_rewrite (State.defs curr) t /\
  (forall t', (exists fuel, macroexpand fuel curr t = Ok t') <-> expands curr t t') /\
  (forall fuel e, macroexpand fuel curr t <> Raise e).
Proof.
  split; [apply macroexpand_head_first |]. split.
  - intros t'. split.
    + intros [fuel E]. by apply (macroexpand_sound curr fuel).
    + apply macroexpand_complete.
  - intros fuel. revert t. induction fuel as [|fuel IH]; intros t e; [done |].
    simpl. destruct (macroexpand_head (State.defs curr) t) as [| |children|];
      try done.
    assert (forall e, maplist (macroexpand fuel curr) children <> Raise e) as Hm.
    { clear -IH. induction children as [|c cs IHc]; intros e; simpl; [done |].
      destruct (macroexpand fuel curr c) as [c'|e'|] eqn:Ec; simpl.
      - specialize (IHc e).
        by destruct (maplist (macroexpand fuel curr) cs).
      - by destruct (IH c e').
      - done. }
    specialize (Hm e).
    destruct (maplist (macroexpand fuel curr) children); simpl; congruence.
Qed.

End Expansion.

Section Includes.

Context `{Parser} `{Checker} `{World}.

Variable depth : nat.

Lemma each_step {A} (f : A -> cmd unit) (x : A) (xs : list A) (s : State.t) :
  each f (x :: xs) s =
  match result (f x s) with
  | Ok _ => after (printed (f x s)) (each f xs (final (f x s)))
  | Raise e => Run (final (f x s)) (printed (f x s)) (Raise e)
  | Exhausted => Run (final (f x s)) (printed (f x s)) Exhausted
  end.
Proof. reflexivity. Qed.

(** [doexprs] starts by emptying the list of variables: what the list
    held plays no part in what follows. *)

Lemma doexprs_resets (dopath' : string -> cmd unit) (text : string)
    (before : list string) (s : State.t) :
  doexprs depth dopath' text (State.set_variables before s) =
  doexprs depth dopath' text (State.set_variables [] s).
Proof. unfold doexprs. by rewrite !modify_bind. Qed.

Lemma dopath_unfold (fuel : nat) (path : string) :
  dopath depth fuel path =
  if negb (path_exists path) then
    print ("Error: path " +:+ path +:+ " does not exists")
  else if path_isdir path then
    print ("Error: path " +:+ path +:+ " is a directory")
  else dofile depth (nested depth fuel) path.
Proof. by destruct fuel. Qed.

Lemma dopath_resets (fuel : nat) (path text : string) (before : list string)
    (s : State.t) :
  processed_file path text ->
  dopath depth fuel path (State.set_variables before s) =
  dopath depth fuel path (State.set_variables [] s).
Proof.
  intros (He & Hd & Hr). rewrite dopath_unfold, He, Hd. simpl.
  unfold dofile. rewrite !print_bind, !lift_bind, Hr.
  by rewrite doexprs_resets.
Qed.

Lemma dopath_skips (fuel : nat) (path : string) :
  path_exists path = false \/ path_isdir path = true ->
  exists line, forall s, dopath depth fuel path s = Run s [line] (Ok tt).
Proof.
  intros Hskip. rewrite dopath_unfold.
  destruct (path_exists path); simpl.
  - destruct Hskip as [Hno | Hdir]; [done |]. rewrite Hdir. by eexists.
  - by eexists.
Qed.

(** An include that comes to a file which is processed ends as it would
    have ended had nothing been declared before it.  The paths before
    that file denote nothing, a directory or a processed file. *)

Lemma include_from_empty (fuel : nat) (before : list string)
    (s : State.t) (skipped : list sexp) (e : sexp) (later : list sexp)
    (path text : string) :
  Forall (fun x => exists p,
            symbol x = Ok p /\
            (path_exists p = false \/ path_isdir p = true \/
             exists t, processed_file p t)) skipped ->
  symbol e = Ok path ->
  processed_file path text ->
  (forall dopath' text',
     doexprs depth dopath' text' (State.set_variables before s) =
     doexprs depth dopath' text' (State.set_variables [] s)) /\
  dopath depth fuel path (State.set_variables before s) =
  dopath depth fuel path (State.set_variables [] s) /\
  include (dopath depth fuel) (skipped ++ e :: later) (State.set_variables before s) =
  include (dopath depth fuel) (skipped ++ e :: later) (State.set_variables [] s).
Proof.
  intros Hskipped Hsym Hfile.
  split; [intros; apply doexprs_resets |].
  split; [by apply (dopath_resets fuel path text) |].
  unfold include.
  induction Hskipped as [|x skipped (p & Hp & Hkind) _ IH]; simpl app.
  - rewrite !each_step, !lift_bind, Hsym.
    by rewrite (dopath_resets fuel path text).
  - rewrite !each_step, !lift_bind, Hp.
    destruct Hkind as [Hno | [Hdir | [t Ht]]].
    + destruct (dopath_skips fuel p) as [l E]; [by left |].
      rewrite !E. simpl. by rewrite IH.
    + destruct (dopath_skips fuel p) as [l E]; [by right |].
      rewrite !E. simpl. by rewrite IH.
    + by rewrite (dopath_resets fuel p t).
Qed.

End Includes.

Section Errors.

Context `{Parser} `{Checker} `{World}.

Variable depth : nat.

Lemma each_app {A} (f : A -> cmd unit) (xs ys : list A) (s : State.t) :
  each f (xs ++ ys) s =
  match result (each f xs s) with
  | Ok _ => after (printed (each f xs s)) (each f ys (final (each f xs s)))
  | Raise e => Run (final (each f xs s)) (printed (each f xs s)) (Raise e)
  | Exhausted => Run (final (each f xs s)) (printed (each f xs s)) Exhausted
  end.
Proof.
  revert s. induction xs as [|x xs IH]; intros s.
  - simpl. by rewrite after_nil.
  - simpl app. rewrite !each_step.
    destruct (result (f x s)) as [[]| |]; simpl; try done.
    rewrite IH.
    destruct (result (each f xs (final (f x s)))) as [[]| |]; simpl; try done.
    unfold after; simpl. by rewrite app_assoc.
Qed.

Lemma each_stops {A} (f : A -> cmd unit) (before : list A) (failed : A)
    (later : list A) (s : State.t) (e : exn) :
  let r1 := each f before s in
  let r2 := f failed (final r1) in
  result r1 = Ok tt ->
  result r2 = Raise e ->
  each f (before ++ failed :: later) s =
  Run (final r2) (printed r1 ++ printed r2) (Raise e).
Proof.
  intros r1 r2 Hr1 Hr2. rewrite each_app. fold r1. rewrite Hr1.
  rewrite each_step. fold r2. by rewrite Hr2.
Qed.

Lemma postulate_loop_premises (s : State.t) (exprs : list sexp) :
  forall (collected terms : list Term),
    Forall (fun x => isseparator x = false) exprs ->
    maplist (parseterm depth s) exprs = Ok terms ->
    postulate_loop depth collected exprs s =
    Run s [] (if nonempty (collected ++ terms)
              then Raise (SyntaxError "incomplete definition") else Ok tt).
Proof.
  induction exprs as [|x exprs IH]; intros collected terms Hsep Hparse.
  - injection Hparse as <-. rewrite app_nil_r. simpl.
    by destruct (nonempty collected).
  - inversion Hsep as [|? ? Hx Hrest]; subst. simpl in *. rewrite Hx.
    rewrite get_bind, lift_bind.
    destruct (parseterm depth s x) as [τ| |]; simpl in Hparse; try done.
    destruct (maplist (parseterm depth s) exprs) as [τs| |]; simpl in Hparse;
      try done.
    injection Hparse as <-. rewrite (IH (collected ++ [τ]) τs); try done.
    by rewrite <- app_assoc.
Qed.

(** C6, as the code has it: nothing catches an error that is no
    verification error.  A postulate form that ends on premises raises
    the syntax error, a form with an unknown head fails its assertion;
    an exception raised by a form ends the file, the forms after it are
    not evaluated; and an exception raised by a file ends the run with
    that exception: the files after it on the command line are not
    processed, and the state is as the failed form left it. *)

Theorem error_ends_the_run (fuel : nat) (s : State.t) :
  (forall (exprs : list sexp) (terms : list Term),
     exprs <> [] ->
     Forall (fun x => isseparator x = false) exprs ->
     maplist (parseterm depth s) exprs = Ok terms ->
     postulate depth exprs s =
     Run s [] (Raise (SyntaxError "incomplete definition"))) /\
  (forall (dopath' : string -> cmd unit) (head : sexp) (tail : list sexp)
          (form : string),
     symbol head = Ok form ->
     assoc form (forms depth dopath') = None ->
     evaluate depth dopath' (SList (head :: tail)) s =
     Run s [] (Raise (AssertionError (unknown_form form)))) /\
  (forall (path text : string) (forms_before : list sexp) (failed : sexp)
          (forms_later : list sexp) (e : exn),
     processed_file path text ->
     sexpdata_parse text = Ok (forms_before ++ failed :: forms_later) ->
     let r1 := each (evaluate depth (nested depth fuel)) forms_before
                 (State.set_variables [] s) in
     let r2 := evaluate depth (nested depth fuel) failed (final r1) in
     result r1 = Ok tt ->
     result r2 = Raise e ->
     dopath depth fuel path s =
     Run (final r2) (("Checking " +:+ path) :: printed r1 ++ printed r2) (Raise e)) /\
  (forall (before : list string) (failed : string) (later : list string) (e : exn),
     let r1 := each (dopath depth fuel) before State.init in
     let r2 := dopath depth fuel failed (final r1) in
     result r1 = Ok tt ->
     result r2 = Raise e ->
     main depth fuel (before ++ failed :: later) =
     Run (final r2) (printed r1 ++ printed r2) (Raise e)).
Proof.
  repeat split.
  - intros exprs terms Hne Hsep Hparse. unfold postulate.
    rewrite (postulate_loop_premises s exprs [] terms Hsep Hparse). simpl.
    destruct exprs as [|x exprs]; [done |]. simpl in Hparse.
    destruct (parseterm depth s x); simpl in Hparse; try done.
    destruct (maplist (parseterm depth s) exprs); simpl in Hparse; try done.
    by injection Hparse as <-.
  - intros dopath' head tail form Hsym Hform. unfold evaluate.
    by rewrite lift_bind, Hsym, Hform.
  - intros path text forms_before failed forms_later e (He & Hd & Hr) Hparse
      r1 r2 Hr1 Hr2.
    rewrite dopath_unfold, He, Hd. simpl. unfold dofile.
    rewrite print_bind, lift_bind, Hr. unfold doexprs.
    rewrite modify_bind, lift_bind, Hparse.
    by rewrite (each_stops _ _ _ _ _ e Hr1 Hr2).
  - intros before failed later e r1 r2 Hr1 Hr2. unfold main.
    by rewrite (each_stops _ _ _ _ _ e Hr1 Hr2).
Qed.

End Errors.

(** ** The kernel of the specification *)

Section ReferenceKernel.

(** Induction over a term, with the hypothesis for every child. *)

Lemma Term_children_ind (P : Term -> Prop) :
  (forall name, P (Lit name)) ->
  (forall name, P (Var name)) ->
  (forall children, Forall P children -> P (Symtree children)) ->
  P Hole ->
  forall τ, P τ.
Proof.
  intros HLit HVar HTree HHole. fix IH 1. intros [name|name|children|].
  - apply HLit.
  - apply HVar.
  - apply HTree. induction children as [|c cs IHcs]; constructor.
    + apply IH.
    + apply IHcs.
  - apply HHole.
Qed.

Lemma Term_eqb_eq (a b : Term) : Reference.Term_eqb a b = true <-> a = b.
Proof.
  revert b. induction a as [x|x|xs IH|] using Term_children_ind;
    intros [y|y|ys|]; simpl; try (split; congruence).
  - rewrite String.eqb_eq. split; congruence.
  - rewrite String.eqb_eq. split; congruence.
  - revert ys. induction IH as [|x xs Hx _ IHxs]; intros [|y ys];
      try (split; congruence).
    rewrite andb_true_iff, Hx, IHxs. split.
    + intros [-> [= ->]]. done.
    + intros [= -> ->]. done.
Qed.

(** The check of the specification succeeds exactly when the proof can
    be inferred and its conclusion is, structurally, the expected term. *)

Lemma spec_check_structural (ctx : gmap string InferenceRule.t) (bound : list Term)
    (expected : Term) (proof : ProofTerm.t) :
  (Reference.spec_check ctx bound expected proof).2 = Ok tt <->
  (Reference.spec_infer ctx bound proof).2 = Ok expected.
Proof.
  unfold Reference.spec_check.
  destruct (Reference.spec_infer ctx bound proof) as [out [derived|e|]]; simpl;
    try (split; congruence).
  destruct (Reference.Term_eqb expected derived) eqn:E; simpl.
  - apply Term_eqb_eq in E. subst. done.
  - split; [done |]. intros [= ->].
    assert (Reference.Term_eqb expected expected = true) by by apply Term_eqb_eq.
    congruence.
Qed.

Lemma spec_infer_premises_outcome (cited : string -> list string * outcome Term)
    (pairs : list (Term * Argument)) :
  (forall template name, (template, LemmaRef name) ∈ pairs ->
     verification_outcome (cited name).2) ->
  forall σ, verification_outcome (Reference.spec_infer_premises cited σ pairs).2.
Proof.
  induction pairs as [|[template [tag|name]] rest IH]; intros Hcited σ; simpl.
  - done.
  - assert (forall t n, (t, LemmaRef n) ∈ rest -> verification_outcome (cited n).2)
      as Hrest by (intros; eapply Hcited; by right).
    specialize (IH Hrest σ).
    by destruct (Reference.spec_infer_premises cited σ rest).
  - assert (forall t n, (t, LemmaRef n) ∈ rest -> verification_outcome (cited n).2)
      as Hrest by (intros; eapply Hcited; by right).
    assert (verification_outcome (cited name).2) as Hname
      by (eapply Hcited; by left).
    destruct (cited name) as [out [actual|e|]]; simpl in *; try done.
    destruct (Reference.spec_match σ template actual) as [[] σ']; simpl; [| done].
    specialize (IH Hrest σ').
    by destruct (Reference.spec_infer_premises cited σ' rest).
Qed.

Lemma spec_infer_with_outcome (cited : string -> list string * outcome Term)
    (ctx : gmap string InferenceRule.t) (proof : ProofTerm.t) :
  (forall name, LemmaRef name ∈ ProofTerm.arguments proof ->
     verification_outcome (cited name).2) ->
  verification_outcome (Reference.spec_infer_with cited ctx proof).2.
Proof.
  intros Hcited. unfold Reference.spec_infer_with.
  destruct (ctx !! ProofTerm.edge proof) as [rule|]; [| done].
  destruct (decide _); [| done].
  pose proof (spec_infer_premises_outcome cited
    (zip (InferenceRule.premises rule) (ProofTerm.arguments proof))) as Hp.
  destruct (Reference.spec_infer_premises cited (ProofTerm.substitutions proof)
    (zip (InferenceRule.premises rule) (ProofTerm.arguments proof)))
    as [out r] eqn:E.
  assert (verification_outcome r) as Hr.
  { change r with (out, r).2. rewrite <- E. apply Hp.
    intros template name Hin. apply Hcited.
    apply elem_of_zip_r in Hin. done. }
  simpl. by destruct r.
Qed.

Lemma spec_infer_outcome (ctx : gmap string InferenceRule.t) (bound : list Term)
    (proof : ProofTerm.t) :
  verification_outcome (Reference.spec_infer ctx bound proof).2.
Proof.
  apply spec_infer_with_outcome. intros name _.
  apply spec_infer_with_outcome. simpl. intros ? Hin. by inversion Hin.
Qed.

Lemma spec_check_outcome (ctx : gmap string InferenceRule.t) (bound : list Term)
    (expected : Term) (proof : ProofTerm.t) :
  verification_outcome (Reference.spec_check ctx bound expected proof).2.
Proof.
  unfold Reference.spec_check. pose proof (spec_infer_outcome ctx bound proof) as Hi.
  destruct (Reference.spec_infer ctx bound proof) as [out [derived|e|]]; simpl in *;
    try done.
  by destruct (Reference.Term_eqb expected derived).
Qed.

Lemma spec_locals_outcome (bound : list Term) (locals : list (string * ProofTerm.t))
    (s : State.t) :
  forall τctx,
    verification_outcome
      (result (theorem_locals (H0 := Reference.checker) bound τctx locals s)).
Proof.
  induction locals as [|[x xs] rest IH]; intros τctx; simpl; [done |].
  rewrite call_bind.
  pose proof (spec_infer_outcome τctx bound xs) as Hi. simpl in *.
  destruct (Reference.spec_infer τctx bound xs) as [out [τ|e|]]; simpl in *;
    done.
Qed.

(** With the kernel of the specification, a verification that does not
    succeed raises a verification error: it is the failure that
    [theorem] catches. *)

Lemma spec_verify_outcome (bound : list Term) (τctx : gmap string InferenceRule.t)
    (locals : list (string * ProofTerm.t)) (conclusion : Term)
    (proof : ProofTerm.t) (s : State.t) :
  verification_outcome
    (result (verify (H0 := Reference.checker) bound τctx locals conclusion proof s)).
Proof.
  unfold verify, mbind, cmd_bind.
  pose proof (spec_locals_outcome bound locals s τctx) as Hl.
  destruct (result (theorem_locals bound τctx locals s)) as [τctx'|e|]; simpl in *;
    try done.
  apply spec_check_outcome.
Qed.

End ReferenceKernel.

(** ** Further properties of the driver *)

Section Separators.

Lemma strip_prefix_append (ch s s' : string) :
  strip_prefix ch s = Some s' <-> s = ch +:+ s'.
Proof.
  revert s. induction ch as [|a ch IH]; intros s; simpl.
  - change (EmptyString +:+ s') with s'. split; congruence.
  - change (String a ch +:+ s') with (String a (ch +:+ s')).
    destruct s as [|b s]; [split; congruence |].
    destruct (Ascii.eqb a b) eqn:E.
    + apply Ascii.eqb_eq in E. subst b. rewrite IH. split; congruence.
    + apply Ascii.eqb_neq in E. split; congruence.
Qed.

Lemma length_append (a b : string) :
  String.length (a +:+ b) = String.length a + String.length b.
Proof.
  induction a as [|c a IH]; [done |].
  change (String c a +:+ b) with (String c (a +:+ b)). simpl. by rewrite IH.
Qed.

Lemma append_cancel (a x y : string) : a +:+ x = a +:+ y -> x = y.
Proof.
  induction a as [|c a IH]; [done |].
  change (String c a +:+ ?z) with (String c (a +:+ z)).
  intros [= E]. by apply IH.
Qed.

Lemma containsonly_upto_runs (ch : string) (n : nat) :
  ch <> EmptyString ->
  forall s, String.length s <= n ->
    containsonly_upto n ch s = true <-> exists k, s = run_of k ch.
Proof.
  intros Hch. induction n as [|n IH]; intros s Hlen.
  - destruct s; simpl in Hlen; [| lia]. split; [by exists 0 | done].
  - destruct s as [|c s]; [split; [by exists 0 | done] |].
    cbn [containsonly_upto].
    destruct (strip_prefix ch (String c s)) as [s'|] eqn:E.
    + apply strip_prefix_append in E.
      assert (String.length s' <= n) as Hs'.
      { apply (f_equal String.length) in E. rewrite length_append in E.
        destruct ch; [done |]. simpl in *. lia. }
      rewrite (IH s' Hs'). split.
      * intros [k ->]. exists (S k). by rewrite E.
      * intros [[|k] Hk]; [done |]. simpl in Hk. rewrite E in Hk.
        exists k. by apply (append_cancel ch).
    + split; [done |]. intros [[|k] Hk]; [done |]. simpl in Hk.
      apply strip_prefix_append in Hk. congruence.
Qed.

Lemma containsonly_runs (ch s : string) :
  ch <> EmptyString ->
  containsonly ch s = true <-> exists k, s = run_of k ch.
Proof. intros Hch. by apply containsonly_upto_runs. Qed.

(** X3: the separators are the symbols made of box-drawing dashes only
    or of hyphens only, of any length; a symbol that mixes the two, any
    other symbol, and whatever is no symbol, is no separator. *)

Theorem isseparator_runs (expr : sexp) :
  isseparator expr = true <->
  exists n, expr = Symbol (run_of n "─") \/ expr = Symbol (run_of n "-").
Proof.
  destruct expr as [value| | |]; simpl;
    try (split; [done | by intros [k [|]]]).
  rewrite orb_false_r, orb_true_iff.
  rewrite (containsonly_runs "─" value), (containsonly_runs "-" value) by done.
  split.
  - intros [[k ->] | [k ->]]; exists k; auto.
  - intros [k [[= ->] | [= ->]]]; [left | right]; by exists k.
Qed.

End Separators.

Section Postulates.

Context `{Parser} `{Checker}.

Variable depth : nat.

(** The premises before a separator are parsed and collected in order. *)

Lemma postulate_loop_collects (s : State.t) (ps : list sexp) :
  forall (collected ts : list Term) (more : list sexp),
    Forall (fun x => isseparator x = false) ps ->
    maplist (parseterm depth s) ps = Ok ts ->
    postulate_loop depth collected (ps ++ more) s =
    postulate_loop depth (collected ++ ts) more s.
Proof.
  induction ps as [|x ps IH]; intros collected ts more Hsep Hparse.
  - injection Hparse as <-. by rewrite app_nil_r.
  - inversion Hsep as [|? ? Hx Hrest]; subst. simpl in *. rewrite Hx.
    rewrite get_bind, lift_bind.
    destruct (parseterm depth s x) as [τ| |]; simpl in Hparse; try done.
    destruct (maplist (parseterm depth s) ps) as [τs| |]; simpl in Hparse;
      try done.
    injection Hparse as <-. rewrite (IH (collected ++ [τ]) τs); try done.
    by rewrite <- app_assoc.
Qed.

(** X1: a group of a postulate form whose name is new declares the rule
    made of the premises written before the separator, in their order,
    and of the conclusion; the line is printed, and the loop goes on
    with the rest of the form from no premise at all.  The rule is in
    the context when the form ends, however it ends. *)

Theorem postulate_declares (s : State.t) (collected : list Term)
    (ps : list sexp) (ts : list Term) (sep n c : sexp) (rest : list sexp)
    (name : string) (conclusion : Term) :
  Forall (fun x => isseparator x = false) ps ->
  maplist (parseterm depth s) ps = Ok ts ->
  isseparator sep = true ->
  symbol n = Ok name ->
  parseterm depth s c = Ok conclusion ->
  State.context s !! name = None ->
  let rule := InferenceRule.mk (collected ++ ts) conclusion in
  let s' := State.set_context (<[name := rule]> (State.context s)) s in
  let r := postulate_loop depth collected (ps ++ sep :: n :: c :: rest) s in
  r = after [postulated name] (postulate_loop depth [] rest s') /\
  State.context (final r) !! name = Some rule.
Proof.
  intros Hps Hts Hsep Hsym Hc Hnew rule s' r.
  assert (E : r = after [postulated name] (postulate_loop depth [] rest s')).
  { subst r. rewrite (postulate_loop_collects s ps collected ts _ Hps Hts).
    simpl. rewrite Hsep, lift_bind, Hsym, get_bind, lift_bind, Hc.
    destruct (decide (is_Some (State.context s !! name))) as [[? Hin]|_];
      [congruence |].
    erewrite (bind_ok _ _ s tt); [done | reflexivity]. }
  split; [done |]. rewrite E. simpl.
  eapply lookup_weaken;
    [| apply (postulate_loop_keeps depth (length rest)); done].
  apply lookup_insert_eq.
Qed.

(** X2: a postulate form is not undone by its own failure: when a group
    with a new name is followed by premises that no separator closes,
    the form raises the syntax error and the rule of the group stays in
    the context. *)

Theorem postulate_keeps_groups_before_error (s : State.t) (ps : list sexp)
    (ts : list Term) (sep n c : sexp) (dangling : list sexp)
    (name : string) (conclusion : Term) (ds : list Term) :
  Forall (fun x => isseparator x = false) ps ->
  maplist (parseterm depth s) ps = Ok ts ->
  isseparator sep = true ->
  symbol n = Ok name ->
  parseterm depth s c = Ok conclusion ->
  State.context s !! name = None ->
  let rule := InferenceRule.mk ts conclusion in
  let s' := State.set_context (<[name := rule]> (State.context s)) s in
  dangling <> [] ->
  Forall (fun x => isseparator x = false) dangling ->
  maplist (parseterm depth s') dangling = Ok ds ->
  postulate depth (ps ++ sep :: n :: c :: dangling) s =
  Run s' [postulated name] (Raise (SyntaxError "incomplete definition")).
Proof.
  intros Hps Hts Hsep Hsym Hc Hnew rule s' Hne Hds Hparse. unfold postulate.
  rewrite (postulate_loop_collects s ps [] ts _ Hps Hts).
  simpl. rewrite Hsep, lift_bind, Hsym, get_bind, lift_bind, Hc.
  destruct (decide (is_Some (State.context s !! name))) as [[? Hin]|_];
    [congruence |].
  erewrite (bind_ok _ _ s tt); [| reflexivity]. simpl final. fold rule. fold s'.
  rewrite (postulate_loop_premises depth s' dangling [] ds Hds Hparse). simpl.
  destruct dangling as [|d dangling]; [done |]. simpl in Hparse.
  destruct (parseterm depth s' d); simpl in Hparse; try done.
  destruct (maplist (parseterm depth s') dangling); simpl in Hparse; try done.
  by injection Hparse as <-.
Qed.

End Postulates.

Section ProofTerms.

Context `{Parser} `{Checker}.

Variable depth : nat.

Lemma genenv_app (curr : State.t) (front more : list sexp)
    (written : list (string * Term)) :
  binds depth curr front written ->
  genenv depth curr (front ++ more) =
  (rest ← genenv depth curr more; Ok (written ++ rest)).
Proof.
  induction 1 as [|v s e rest var sep τ written Hv Hs Hsep He _ IH].
  - simpl. by destruct (genenv depth curr more).
  - simpl. rewrite Hv; simpl. rewrite Hs; simpl. rewrite He; simpl.
    rewrite decide_True by done. rewrite IH.
    by destruct (genenv depth curr more).
Qed.

(** X4: a substitution list that stops in the middle of a binding, after
    the variable or after its separator, raises the syntax error that
    names the variable; a binding whose separator is none of [:=] and
    [≔] raises the other syntax error, once its expression has parsed,
    and whatever follows it.  The bindings before do not matter. *)

Theorem genenv_errors (curr : State.t) (front : list sexp)
    (written : list (string * Term)) (v : sexp) (var : string) :
  binds depth curr front written ->
  symbol v = Ok var ->
  let nothing := SyntaxError ("“" +:+ var +:+ "” mapped to nothing") in
  genenv depth curr (front ++ [v]) = Raise nothing /\
  (forall s sep, symbol s = Ok sep ->
     genenv depth curr (front ++ [v; s]) = Raise nothing) /\
  (forall s sep e τ rest,
     symbol s = Ok sep -> sep ∉ separators -> parseterm depth curr e = Ok τ ->
     genenv depth curr (front ++ v :: s :: e :: rest) =
     Raise (SyntaxError "invalid substitution list")).
Proof.
  intros Hfront Hv nothing. repeat split; intros;
    rewrite (genenv_app _ _ _ _ Hfront); simpl; rewrite Hv; simpl; try done.
  - match goal with E : symbol _ = Ok _ |- _ => rewrite E end. done.
  - match goal with E : symbol _ = Ok _ |- _ => rewrite E end. simpl.
    match goal with E : parseterm _ _ _ = Ok _ |- _ => rewrite E end. simpl.
    by rewrite decide_False.
Qed.

(** X5: a substitution list that parses is made of threes: its length
    is three times the number of bindings it writes. *)

Theorem genenv_by_threes (curr : State.t) (items : list sexp)
    (written : list (string * Term)) :
  genenv depth curr items = Ok written ->
  length items = 3 * length written.
Proof.
  intros E. apply (genenv_binds depth curr (length items)) in E; [| done].
  induction E; simpl; lia.
Qed.

Lemma maplist_argument_bracket (front : list sexp) (items rest : list sexp) :
  forall arguments, maplist argument (front ++ Bracket items :: rest) <> Ok arguments.
Proof.
  induction front as [|x front IH]; intros arguments; simpl; [done |].
  destruct (argument x); simpl; try done.
  specialize (IH (tail arguments)).
  destruct (maplist argument (front ++ Bracket items :: rest)); simpl; try done.
  intros [= <-]. by apply IH.
Qed.

(** X6: a proof term whose first argument is no bracketed list has no
    explicit substitution: every item after the rule's name is read as
    an argument, in order. *)

Theorem proof_without_substitutions (curr : State.t) (edge : sexp)
    (args : list sexp) (p : ProofTerm.t) :
  (forall items rest, args <> Bracket items :: rest) ->
  proof depth curr (SList (edge :: args)) = Ok p ->
  symbol edge = Ok (ProofTerm.edge p) /\
  maplist argument args = Ok (ProofTerm.arguments p) /\
  ProofTerm.substitutions p = ∅.
Proof.
  intros Hargs. unfold proof.
  assert (match first args, args with
          | Some (Bracket items), _ :: args' => (items, args')
          | _, _ => ([], args)
          end = ([], args)) as ->.
  { destruct args as [|[| | |items] rest]; try done. by destruct (Hargs items rest). }
  destruct (symbol edge) as [name| |]; simpl; try done.
  destruct (maplist argument args) as [arguments| |]; simpl; try done.
  by intros [= <-].
Qed.

Lemma proof_arguments_fail (curr : State.t) (edge : sexp) (args substs : list sexp)
    (p : ProofTerm.t) :
  (forall arguments, maplist argument args <> Ok arguments) ->
  (name ← symbol edge;
   arguments ← maplist argument args;
   env ← genenv depth curr substs;
   Ok (ProofTerm.mk name arguments (dict env))) <> Ok p.
Proof.
  intros Hargs. destruct (symbol edge); simpl; try done.
  specialize (Hargs (ProofTerm.arguments p)).
  destruct (maplist argument args) as [arguments| |]; simpl; try done.
  destruct (genenv depth curr substs); simpl; try done.
  intros [= Hp]. apply Hargs. by rewrite <- Hp.
Qed.

(** X7: a bracketed list is a substitution list only as the first item
    after the rule's name; anywhere later it is taken for an argument,
    which it is not, and the proof term does not parse. *)

Theorem bracket_only_after_the_rule (curr : State.t) (edge a : sexp)
    (front items rest : list sexp) (p : ProofTerm.t) :
  proof depth curr (SList (edge :: a :: front ++ Bracket items :: rest)) <> Ok p.
Proof.
  unfold proof.
  destruct a; cbn [first]; apply proof_arguments_fail;
    first [ apply (maplist_argument_bracket (_ :: front))
          | apply maplist_argument_bracket ].
Qed.

Lemma pop_snoc {A} (xs : list A) (x : A) : pop (xs ++ [x]) = Ok (xs, x).
Proof.
  induction xs as [|y xs IH]; [done |].
  destruct xs as [|z xs]; [done |].
  change (pop ((y :: z :: xs) ++ [x]))
    with ('(init, x) ← pop ((z :: xs) ++ [x]); Ok (y :: init, x)).
  by rewrite IH.
Qed.

Lemma pop_inv {A} (xs init : list A) (x : A) :
  pop xs = Ok (init, x) -> xs = init ++ [x].
Proof.
  revert init. induction xs as [|y xs IH]; intros init; [done |].
  destruct xs as [|z xs].
  - simpl. intros E. by injection E as <- <-.
  - change (pop (y :: z :: xs))
      with ('(init, x) ← pop (z :: xs); Ok (y :: init, x)).
    destruct (pop (z :: xs)) as [[init' x']| |]; simpl; try done.
    intros E. injection E as <- <-. by rewrite (IH init' eq_refl).
Qed.

Lemma pop_nonempty {A} (xs : list A) :
  xs <> [] -> exists init x, pop xs = Ok (init, x).
Proof.
  intros Hne. destruct (exists_last Hne) as (init & x & ->).
  exists init, x. apply pop_snoc.
Qed.

Lemma proofs_nonempty (curr : State.t) (x : sexp) (xs : list sexp)
    (ps : list (string * ProofTerm.t)) :
  proofs depth curr (x :: xs) = Ok ps -> ps <> [].
Proof.
  simpl. destruct (symbol x); simpl; try done.
  destruct xs as [|b xs]; [done |].
  destruct (proof depth curr b); simpl; try done.
  destruct (proofs depth curr xs); simpl; try done.
  by intros [= <-].
Qed.

Lemma preamble_loop_shape (curr : State.t) (n : nat) :
  forall expr names premises expected name conclusion names' premises' body,
    length expr <= n ->
    expected + length premises = length names ->
    preamble_loop depth curr names premises expected expr =
      Ok (name, conclusion, names', premises', body) ->
    length names' = length premises' /\ body <> [].
Proof.
  induction n as [|n IH];
    intros expr names premises expected name conclusion names' premises' body
      Hlen Hinv.
  - destruct expr; simpl in Hlen; [done | lia].
  - destruct expr as [|elem expr1]; [done |]. simpl in Hlen. simpl.
    destruct (isseparator elem).
    + destruct expr1 as [|nm expr2]; [done |].
      destruct (symbol nm) as [h| |]; simpl; try done.
      apply IH; [simpl in Hlen; lia |]. rewrite length_app. simpl. lia.
    + destruct expected as [|expected].
      * destruct (pop names) as [[ns nm]| |] eqn:En; simpl; try done.
        destruct (pop premises) as [[ps c]| |] eqn:Ep; simpl; try done.
        destruct (symbol elem) as [label| |] eqn:El; simpl; try done.
        destruct expr1 as [|b expr2]; [done |].
        destruct (proof depth curr b) as [pf| |]; simpl; try done.
        destruct (proofs depth curr expr2) as [more| |]; simpl; try done.
        intros [= <- <- <- <- <-].
        apply pop_inv in En, Ep. subst names premises.
        rewrite !length_app in Hinv. simpl in Hinv. split; [lia | done].
      * destruct (parseterm depth curr elem) as [τ| |]; simpl; try done.
        apply IH; [lia |]. rewrite length_app. simpl. lia.
Qed.

(** X8: a theorem form that [preamble] accepts has as many named
    hypotheses as premises, and at least one proof, so that taking the
    last proof off the body cannot fail. *)

Theorem preamble_shape (s : State.t) (expr : list sexp) (name : string)
    (conclusion : Term) (names : list string) (premises : list Term)
    (body : list (string * ProofTerm.t)) :
  preamble depth s expr = Ok (name, conclusion, names, premises, body) ->
  length names = length premises /\
  exists locals last, pop body = Ok (locals, last) /\ body = locals ++ [last].
Proof.
  intros E.
  apply (preamble_loop_shape s (length expr)) in E as [Hlen Hbody]; try done.
  split; [done |].
  destruct (pop_nonempty body Hbody) as (locals & last & Hpop).
  exists locals, last. split; [done | by apply pop_inv].
Qed.

Lemma preamble_loop_hypotheses (s : State.t) (hyps : list (sexp * sexp * sexp))
    (read : list (string * Term)) :
  Forall2 (fun h r =>
             isseparator h.1.1 = true /\ symbol h.1.2 = Ok r.1 /\
             isseparator h.2 = false /\ parseterm depth s h.2 = Ok r.2)
          hyps read ->
  forall names premises more,
    preamble_loop depth s names premises 0 (hypotheses_written hyps ++ more) =
    preamble_loop depth s (names ++ read.*1) (premises ++ read.*2) 0 more.
Proof.
  induction 1 as [|[[sep nm] τ] [h t] hyps read (Hsep & Hnm & Hτ & Ht) _ IH];
    intros names premises more.
  - by rewrite !app_nil_r.
  - simpl in *. rewrite Hsep, Hnm. simpl. rewrite Hτ, Ht. simpl.
    rewrite IH. by rewrite <- !app_assoc.
Qed.

(** X9: a theorem form written hypothesis by hypothesis, each as a
    separator, a name and a term, then a separator, the theorem's name
    and its conclusion, then the labelled proofs, is read as it is
    written: [preamble] returns the name, the conclusion, the names and
    the terms of the hypotheses in order, and the proofs. *)

Theorem preamble_reads_hypotheses (s : State.t)
    (hyps : list (sexp * sexp * sexp)) (read : list (string * Term))
    (sep n c label : sexp) (body : list sexp) (name : string)
    (conclusion : Term) (ps : list (string * ProofTerm.t)) :
  Forall2 (fun h r =>
             isseparator h.1.1 = true /\ symbol h.1.2 = Ok r.1 /\
             isseparator h.2 = false /\ parseterm depth s h.2 = Ok r.2)
          hyps read ->
  isseparator sep = true ->
  symbol n = Ok name ->
  isseparator c = false ->
  parseterm depth s c = Ok conclusion ->
  isseparator label = false ->
  proofs depth s (label :: body) = Ok ps ->
  preamble depth s (hypotheses_written hyps ++ sep :: n :: c :: label :: body) =
  Ok (name, conclusion, read.*1, read.*2, ps).
Proof.
  intros Hhyps Hsep Hn Hc Hconclusion Hlabel Hps. unfold preamble.
  rewrite (preamble_loop_hypotheses s hyps read Hhyps). simpl app.
  cbn [preamble_loop]. rewrite Hsep, Hn. simpl.
  rewrite Hc, Hconclusion. simpl. rewrite Hlabel.
  rewrite !pop_snoc. simpl. simpl in Hps. by rewrite Hps.
Qed.

(** X19: a theorem form that gives hypotheses, a name and a conclusion
    and stops there, without a proof, raises an index error: [preamble]
    takes the next item off a list that has none.  Nothing is printed
    and the state is as it was. *)

Theorem theorem_without_proof (s : State.t) (hyps : list (sexp * sexp * sexp))
    (read : list (string * Term)) :
  hyps <> [] ->
  Forall2 (fun h r =>
             isseparator h.1.1 = true /\ symbol h.1.2 = Ok r.1 /\
             isseparator h.2 = false /\ parseterm depth s h.2 = Ok r.2)
          hyps read ->
  preamble depth s (hypotheses_written hyps) = Raise IndexError /\
  theorem depth (hypotheses_written hyps) s = Run s [] (Raise IndexError).
Proof.
  intros Hne Hhyps.
  assert (E : preamble depth s (hypotheses_written hyps) = Raise IndexError).
  { unfold preamble.
    rewrite <- (app_nil_r (hypotheses_written hyps)).
    by rewrite (preamble_loop_hypotheses s hyps read Hhyps). }
  split; [done |]. unfold theorem.
  destruct hyps as [|[[sep nm] τ] hyps]; [done |].
  change (nonempty (hypotheses_written ((sep, nm, τ) :: hyps))) with true.
  cbv iota. by rewrite get_bind, lift_bind, E.
Qed.

(** A postulate form that returns is a sequence of whole groups: what
    comes after it in a longer form is read from no premise at all, in
    the state and after the lines that the groups have left. *)

Lemma postulate_loop_app (n : nat) :
  forall (groups : list sexp) (collected : list Term) (more : list sexp)
         (s s1 : State.t) (out : list string),
    length groups <= n ->
    postulate_loop depth collected groups s = Run s1 out (Ok tt) ->
    postulate_loop depth collected (groups ++ more) s =
    after out (postulate_loop depth [] more s1).
Proof.
  induction n as [|n IH]; intros groups collected more s s1 out Hlen Hrun.
  - destruct groups; simpl in Hlen; [| lia]. simpl in Hrun.
    destruct collected; simpl in Hrun; [| done].
    injection Hrun as <- <-. simpl. by rewrite after_nil.
  - destruct groups as [|elem g1].
    { simpl in Hrun. destruct collected; simpl in Hrun; [| done].
      injection Hrun as <- <-. simpl. by rewrite after_nil. }
    simpl in Hlen. simpl in Hrun |- *. destruct (isseparator elem).
    + destruct g1 as [|nm g2]; [done |]. simpl.
      rewrite lift_bind in Hrun |- *.
      destruct (symbol nm) as [name| |]; try done.
      destruct g2 as [|c g3]; [done |]. simpl.
      rewrite get_bind, lift_bind in Hrun |- *.
      destruct (parseterm depth s c) as [conclusion| |]; try done.
      destruct (decide (is_Some (State.context s !! name))).
      * rewrite print_bind in Hrun |- *.
        destruct (postulate_loop depth [] g3 s) as [s2 out2 r2] eqn:E.
        unfold after in Hrun. simpl in Hrun. injection Hrun as -> <- ->.
        rewrite (IH g3 [] more s s1 out2); [| simpl in Hlen; lia | done].
        by rewrite after_after.
      * erewrite (bind_ok _ _ s tt) in Hrun; [| reflexivity].
        erewrite (bind_ok _ _ s tt); [| reflexivity].
        simpl in Hrun |- *.
        destruct (postulate_loop depth [] g3 _) as [s2 out2 r2] eqn:E.
        unfold after in Hrun. simpl in Hrun. injection Hrun as -> <- ->.
        rewrite (IH g3 [] more _ s1 out2); [| simpl in Hlen; lia | done].
        by rewrite after_after.
    + rewrite get_bind, lift_bind in Hrun |- *.
      destruct (parseterm depth s elem) as [τ| |]; try done.
      apply IH; [lia | done].
Qed.

(** X20: a postulate form made of groups that [postulate] accepts, then
    of premises, and that ends there on a separator, or on a separator
    and a name, raises an index error, not the syntax error of the
    form: the name or the conclusion is taken off a list that has
    nothing left.  The groups before the cut are declared all the same:
    the state and the lines printed are those of the groups alone, and
    the cut part adds nothing to them. *)

Theorem postulate_cut_after_separator (s s1 : State.t) (out : list string)
    (groups ps : list sexp) (ts : list Term) (sep : sexp) :
  postulate depth groups s = Run s1 out (Ok tt) ->
  Forall (fun x => isseparator x = false) ps ->
  maplist (parseterm depth s1) ps = Ok ts ->
  isseparator sep = true ->
  postulate depth (groups ++ ps ++ [sep]) s = Run s1 out (Raise IndexError) /\
  forall n name, symbol n = Ok name ->
    postulate depth (groups ++ ps ++ [sep; n]) s = Run s1 out (Raise IndexError).
Proof.
  intros Hgroups Hps Hts Hsep. unfold postulate in *. split.
  - rewrite (postulate_loop_app (length groups) groups [] _ s s1 out);
      [| done | done].
    rewrite (postulate_loop_collects depth s1 ps [] ts _ Hps Hts). simpl.
    rewrite Hsep. unfold after. simpl. by rewrite app_nil_r.
  - intros n name Hn.
    rewrite (postulate_loop_app (length groups) groups [] _ s s1 out);
      [| done | done].
    rewrite (postulate_loop_collects depth s1 ps [] ts _ Hps Hts). simpl.
    rewrite Hsep, lift_bind, Hn. unfold after. simpl. by rewrite app_nil_r.
Qed.

End ProofTerms.

Section Footprints.

Context `{Parser} `{Checker} `{World}.

Variable depth : nat.

Lemma set_context_twice (c c' : gmap string InferenceRule.t) (s : State.t) :
  State.set_context c (State.set_context c' s) = State.set_context c s.
Proof. done. Qed.

Lemma set_context_same (s : State.t) : State.set_context (State.context s) s = s.
Proof. by destruct s. Qed.

Lemma postulate_loop_footprint (n : nat) :
  forall (expr : list sexp) (premises : list Term) (s : State.t),
    length expr <= n ->
    exists c, final (postulate_loop depth premises expr s) = State.set_context c s.
Proof.
  induction n as [|n IH]; intros expr premises s Hlen.
  - destruct expr; simpl in Hlen; [| lia]. simpl.
    exists (State.context s). rewrite set_context_same.
    by destruct (nonempty premises).
  - destruct expr as [|elem expr1]; simpl.
    { exists (State.context s). rewrite set_context_same.
      by destruct (nonempty premises). }
    simpl in Hlen. destruct (isseparator elem).
    + destruct expr1 as [|nm expr2];
        [exists (State.context s); by rewrite set_context_same |].
      rewrite lift_bind. destruct (symbol nm) as [name| |];
        try (exists (State.context s); by rewrite set_context_same).
      destruct expr2 as [|c expr3];
        [exists (State.context s); by rewrite set_context_same |].
      rewrite get_bind, lift_bind.
      destruct (parseterm depth s c) as [conclusion| |];
        try (exists (State.context s); by rewrite set_context_same).
      destruct (decide (is_Some (State.context s !! name))).
      * rewrite print_bind. simpl. apply IH. simpl in Hlen. lia.
      * erewrite (bind_ok _ _ s tt); [| reflexivity]. simpl.
        edestruct (IH expr3 [] (State.set_context
          (<[name := InferenceRule.mk premises conclusion]> (State.context s)) s))
          as [c' ->]; [simpl in Hlen; lia |].
        by eexists.
    + rewrite get_bind, lift_bind.
      destruct (parseterm depth s elem) as [τ| |];
        try (exists (State.context s); by rewrite set_context_same).
      apply IH. lia.
Qed.

Lemma theorem_footprint (expr : list sexp) (s : State.t) :
  exists c, final (theorem depth expr s) = State.set_context c s.
Proof.
  destruct (preamble depth s expr)
    as [[[[[name conclusion] names] premises] body]| |] eqn:Hpre.
  - destruct (pop body) as [[locals [label proof]]| |] eqn:Hpop.
    + destruct (State.context s !! name) as [rule|] eqn:Hin.
      * rewrite (theorem_known depth _ _ _ _ _ _ _ _ _ _ Hpre Hpop Hin).
        exists (State.context s). by rewrite set_context_same.
      * rewrite (theorem_fresh depth _ _ _ _ _ _ _ _ _ _ Hpre Hpop Hin).
        destruct (result _) as [[]|[]|]; simpl;
          try (exists (State.context s); by rewrite set_context_same).
        by eexists.
    + exists (State.context s). rewrite set_context_same.
      unfold theorem. destruct (nonempty expr); [| done].
      rewrite get_bind, lift_bind, Hpre. simpl. by rewrite lift_bind, Hpop.
    + exists (State.context s). rewrite set_context_same.
      unfold theorem. destruct (nonempty expr); [| done].
      rewrite get_bind, lift_bind, Hpre. simpl. by rewrite lift_bind, Hpop.
  - exists (State.context s). rewrite set_context_same.
    unfold theorem. destruct (nonempty expr); [| done].
    by rewrite get_bind, lift_bind, Hpre.
  - exists (State.context s). rewrite set_context_same.
    unfold theorem. destruct (nonempty expr); [| done].
    by rewrite get_bind, lift_bind, Hpre.
Qed.

(** X10: each form writes one attribute of the state and leaves the
    others as they were, however it ends: postulates and theorems the
    context; infix the operators, by at most one new operator; variables,
    bound and define their lists, by appending at the end. *)

Theorem handlers_footprint (expr : list sexp) (s : State.t) :
  (exists c, final (postulate depth expr s) = State.set_context c s) /\
  (exists c, final (theorem depth expr s) = State.set_context c s) /\
  (final (infix expr s) = s \/
   exists name p, State.infix s !! name = None /\
     final (infix expr s) = State.set_infix (<[name := p]> (State.infix s)) s) /\
  (exists names,
     final (variables expr s) = State.set_variables (State.variables s ++ names) s) /\
  (exists terms,
     final (bound expr s) = State.set_bound (State.bound s ++ terms) s) /\
  (exists definitions, length definitions <= 1 /\
     final (define depth expr s) = State.set_defs (State.defs s ++ definitions) s).
Proof.
  assert (forall s : State.t, State.set_variables (State.variables s ++ []) s = s)
    as Hv by (intros []; unfold State.set_variables; simpl; by rewrite app_nil_r).
  assert (forall s : State.t, State.set_bound (State.bound s ++ []) s = s)
    as Hb by (intros []; unfold State.set_bound; simpl; by rewrite app_nil_r).
  assert (forall s : State.t, State.set_defs (State.defs s ++ []) s = s)
    as Hd by (intros []; unfold State.set_defs; simpl; by rewrite app_nil_r).
  split; [apply (postulate_loop_footprint (length expr)); done |].
  split; [apply theorem_footprint |].
  split; [| split; [| split]].
  - unfold infix. destruct expr as [|ident [|prec [|? ?]]]; try by left.
    destruct prec as [|p| |]; try by left.
    rewrite lift_bind. destruct (symbol ident) as [name| |]; try by left.
    rewrite get_bind. destruct (State.infix s !! name) eqn:E; [by left |].
    right. by exists name, p.
  - unfold variables. rewrite lift_bind.
    destruct (maplist symbol expr) as [names| |];
      [by exists names | exists []; by rewrite Hv ..].
  - unfold bound. rewrite get_bind, lift_bind.
    destruct (maplist (term s) expr) as [terms| |];
      [by exists terms | exists []; by rewrite Hb ..].
  - unfold define. destruct expr as [|pattern [|body [|? ?]]];
      try (exists []; split; [simpl; lia | by rewrite Hd]).
    rewrite get_bind, lift_bind. destruct (term s pattern) as [p| |];
      try (exists []; split; [simpl; lia | by rewrite Hd]).
    rewrite lift_bind. destruct (parseterm depth s body) as [b| |];
      try (exists []; split; [simpl; lia | by rewrite Hd]).
    exists [(p, b)]. by split.
Qed.

End Footprints.

Section ParserState.

Context `{Parser} `{Checker} `{World}.

Variable depth : nat.

#[local] Instance grows_preorder : PreOrder grows.
Proof.
  split.
  - intros s. by repeat split.
  - intros s1 s2 s3 (Hi & Hb & Hd) (Hi' & Hb' & Hd').
    repeat split; by etrans.
Qed.

Lemma growing_bind {A B} (m : cmd A) (f : A -> cmd B) :
  growing m -> (forall a, growing (f a)) -> growing (m ≫= f).
Proof.
  intros Hm Hf s. unfold mbind, cmd_bind. specialize (Hm s).
  destruct (result (m s)) as [a| |]; simpl; try done.
  etrans; [exact Hm | apply Hf].
Qed.

Lemma growing_reads_only {A} (c : cmd A) : reads_only c -> growing c.
Proof. intros Hc s. by rewrite Hc. Qed.

Lemma growing_each {A} (f : A -> cmd unit) (xs : list A) :
  (forall x, growing (f x)) -> growing (each f xs).
Proof.
  intros Hf. induction xs as [|x xs IH]; simpl.
  - by apply growing_reads_only.
  - apply growing_bind; auto.
Qed.

Lemma grows_set_context (c : gmap string InferenceRule.t) (s : State.t) :
  grows s (State.set_context c s).
Proof. by repeat split. Qed.

Lemma postulate_growing (expr : list sexp) : growing (postulate depth expr).
Proof.
  intros s.
  destruct (postulate_loop_footprint depth (length expr) expr [] s) as [c E];
    [done |].
  unfold postulate. rewrite E. apply grows_set_context.
Qed.

Lemma theorem_growing (expr : list sexp) : growing (theorem depth expr).
Proof.
  intros s. destruct (theorem_footprint depth expr s) as [c ->].
  apply grows_set_context.
Qed.

Lemma infix_growing (expr : list sexp) : growing (infix expr).
Proof.
  intros s. unfold infix.
  destruct expr as [|ident [|prec [|? ?]]]; try done.
  destruct prec; try done.
  rewrite lift_bind. destruct (symbol ident) as [name| |]; try done.
  rewrite get_bind. destruct (State.infix s !! name) eqn:E; [done |].
  repeat split; simpl; try done. by apply insert_subseteq.
Qed.

Lemma variables_growing (expr : list sexp) : growing (variables expr).
Proof.
  intros s. unfold variables. rewrite lift_bind.
  by destruct (maplist symbol expr).
Qed.

Lemma bound_growing (expr : list sexp) : growing (bound expr).
Proof.
  intros s. unfold bound. rewrite get_bind, lift_bind.
  destruct (maplist (term s) expr); try done.
  repeat split; simpl; try done. by apply prefix_app_r.
Qed.

Lemma define_growing (expr : list sexp) : growing (define depth expr).
Proof.
  intros s. unfold define.
  destruct expr as [|pattern [|body [|? ?]]]; try done.
  rewrite get_bind, lift_bind. destruct (term s pattern); try done.
  rewrite lift_bind. destruct (parseterm depth s body); try done.
  repeat split; simpl; try done. by apply prefix_app_r.
Qed.

Section NestedGrowing.

Variable dopath' : string -> cmd unit.

Hypothesis dopath_growing : forall path, growing (dopath' path).

Lemma forms_growing (form : string) (handler : list sexp -> cmd unit) :
  assoc form (forms depth dopath') = Some handler ->
  forall tail, growing (handler tail).
Proof.
  unfold forms. simpl.
  repeat (destruct (String.eqb form _);
          [intros [= <-];
           auto using postulate_growing, theorem_growing, infix_growing,
             variables_growing, bound_growing, define_growing |]);
    try done.
  intros tail. apply growing_each. intros expr.
  apply growing_bind; [by apply growing_reads_only | done].
Qed.

Lemma evaluate_growing (expr : sexp) : growing (evaluate depth dopath' expr).
Proof.
  destruct expr as [| |[|head tail]|]; try by apply growing_reads_only.
  unfold evaluate. apply growing_bind; [by apply growing_reads_only |].
  intros form.
  destruct (assoc form (forms depth dopath')) eqn:E;
    [| by apply growing_reads_only].
  by apply (forms_growing form).
Qed.

Lemma dofile_growing (filename : string) : growing (dofile depth dopath' filename).
Proof.
  unfold dofile. apply growing_bind; [by apply growing_reads_only |]. intros _.
  apply growing_bind; [by apply growing_reads_only |]. intros text.
  unfold doexprs. apply growing_bind; [by intros s |]. intros _.
  apply growing_bind; [by apply growing_reads_only |]. intros exprs.
  apply growing_each, evaluate_growing.
Qed.

End NestedGrowing.

Lemma dopath_growing_all (fuel : nat) (path : string) :
  growing (dopath depth fuel path).
Proof.
  revert path. induction fuel as [|fuel IH]; intros path;
    rewrite dopath_unfold;
    (destruct (negb (path_exists path)); [by apply growing_reads_only |]);
    (destruct (path_isdir path); [by apply growing_reads_only |]);
    apply dofile_growing; simpl; [intros p; by apply growing_reads_only | done].
Qed.

(** X11: nothing that the parser reads of the state is ever taken away
    or changed in place.  Over a form, a file and a list of files,
    however they end, an operator keeps its precedence, and the bound
    terms and the definitions that were there stay at the front of their
    lists, in their order; new ones come after them. *)

Theorem parser_state_grows (fuel : nat) (s : State.t) :
  (forall expr, grows s (final (evaluate depth (dopath depth fuel) expr s))) /\
  (forall path, grows s (final (dopath depth fuel path s))) /\
  (forall filenames, grows s (final (each (dopath depth fuel) filenames s))).
Proof.
  split; [| split].
  - intros expr. apply evaluate_growing, dopath_growing_all.
  - intros path. apply dopath_growing_all.
  - intros filenames. apply growing_each, dopath_growing_all.
Qed.

(** X12: an operator that is not registered is registered by an infix
    form with its precedence, without a line printed; a second infix
    form for it changes nothing and prints the error with the first
    precedence: what was registered first is what stays. *)

Theorem infix_first_registration_stays (ident ident' : sexp) (p q : Z)
    (name : string) (s : State.t) :
  symbol ident = Ok name ->
  symbol ident' = Ok name ->
  State.infix s !! name = None ->
  let s' := State.set_infix (<[name := p]> (State.infix s)) s in
  infix [ident; Int p] s = Run s' [] (Ok tt) /\
  State.infix s' !! name = Some p /\
  (infix [ident; Int p];; infix [ident'; Int q]) s =
  Run s' [operator_defined name p] (Ok tt).
Proof.
  intros Hsym Hsym' Hnew s'.
  assert (E : infix [ident; Int p] s = Run s' [] (Ok tt)).
  { unfold infix. by rewrite lift_bind, Hsym, get_bind, Hnew. }
  assert (E' : State.infix s' !! name = Some p) by apply lookup_insert_eq.
  split; [done |]. split; [done |].
  erewrite (bind_ok _ _ s tt); rewrite E; [| done]. simpl.
  unfold infix. by rewrite lift_bind, Hsym', get_bind, E'.
Qed.

End ParserState.

Section Definitions.

Context `{Parser} `{Checker}.

Variable depth : nat.

Lemma macroexpand_head_app (defs more : list (Term * Term)) (t : Term) :
  macroexpand_head (defs ++ more) t =
  if existsb (fun def => (match_ ∅ def.1 t).1) defs
  then macroexpand_head defs t
  else macroexpand_head more t.
Proof.
  induction defs as [|[pattern body] defs IH]; simpl; [done |].
  destruct (match_ ∅ pattern t) as [[] substs]; simpl; [done |]. apply IH.
Qed.

(** X13: a define form whose two terms parse puts the definition at the
    end of the list, and the definitions before it keep their
    precedence: a term that one of them matches is rewritten at the head
    as before, and the new definition rewrites the terms that none of
    them matches and its pattern does; any other term stays. *)

Theorem define_comes_last (pattern body : sexp) (p b : Term) (s : State.t) :
  term s pattern = Ok p ->
  parseterm depth s body = Ok b ->
  let s' := State.set_defs (State.defs s ++ [(p, b)]) s in
  define depth [pattern; body] s = Run s' [] (Ok tt) /\
  forall t,
    macroexpand_head (State.defs s') t =
    if existsb (fun def => (match_ ∅ def.1 t).1) (State.defs s)
    then macroexpand_head (State.defs s) t
    else if (match_ ∅ p t).1 then multisubst (match_ ∅ p t).2 b else t.
Proof.
  intros Hp Hb s'. split.
  - unfold define. by rewrite get_bind, lift_bind, Hp, lift_bind, Hb.
  - intros t. subst s'. simpl. rewrite macroexpand_head_app. simpl.
    by destruct (match_ ∅ p t) as [[] substs].
Qed.

Lemma untouched_without_definitions (t : Term) : untouched [] t.
Proof.
  induction t as [| |children IH|] using Term_children_ind;
    constructor; try done.
  by intros ? [= <-].
Qed.

Lemma foldr_max_le (children : list Term) (c : Term) :
  c ∈ children ->
  height c <= foldr (fun c n => height c `max` n) 0 children.
Proof.
  induction 1 as [c children | c d children _ IH]; simpl; lia.
Qed.

Lemma macroexpand_untouched (curr : State.t) (t : Term) :
  untouched (State.defs curr) t ->
  forall fuel, height t < fuel -> macroexpand fuel curr t = Ok t.
Proof.
  induction t as [n|n|children IH|] using Term_children_ind;
    intros Hu fuel Hfuel; destruct fuel as [|fuel]; try lia;
    inversion Hu as [? Hhead Hchildren]; subst; simpl; rewrite Hhead; try done.
  specialize (Hchildren children eq_refl). simpl in Hfuel.
  assert (maplist (macroexpand fuel curr) children = Ok children) as ->; [| done].
  assert (forall c, c ∈ children -> height c < fuel) as Hh.
  { intros c Hc. apply foldr_max_le in Hc. lia. }
  clear Hu Hhead Hfuel.
  induction children as [|c children IHc]; [done |].
  inversion IH as [|? ? IHhead IHtail]; subst.
  inversion Hchildren as [|? ? Hc Hcs]; subst. simpl.
  rewrite (IHhead Hc fuel) by (apply Hh; by left). simpl.
  rewrite IHc; try done. intros d Hd. apply Hh. by right.
Qed.

(** X16: a term that no definition rewrites, at its head or inside,
    comes out of [macroexpand] as it went in, once the budget exceeds
    the height of the term; so does every term when there is no
    definition at all. *)

Theorem macroexpand_leaves_untouched (curr : State.t) (t : Term) (fuel : nat) :
  height t < fuel ->
  (untouched (State.defs curr) t -> macroexpand fuel curr t = Ok t) /\
  (State.defs curr = [] -> macroexpand fuel curr t = Ok t).
Proof.
  intros Hfuel. split.
  - intros Hu. by apply macroexpand_untouched.
  - intros Hd. apply macroexpand_untouched; [| done]. rewrite Hd.
    apply untouched_without_definitions.
Qed.

(** X17: [theorem] catches verification errors and nothing else: when
    the verification of a theorem with a new name raises another
    exception, the form raises it; the state is as it was and neither
    line about the theorem is printed. *)

Theorem theorem_passes_other_errors (expr : list sexp) (s : State.t)
    (name : string) (conclusion : Term) (names : list string)
    (premises : list Term) (body locals : list (string * ProofTerm.t))
    (label : string) (proof : ProofTerm.t) (e : exn) :
  preamble depth s expr = Ok (name, conclusion, names, premises, body) ->
  pop body = Ok (locals, (label, proof)) ->
  State.context s !! name = None ->
  let v := verify (State.bound s) (local_context (State.context s) names premises)
             locals conclusion proof s in
  result v = Raise e ->
  (forall message, e <> VerificationError message) ->
  theorem depth expr s = Run s (printed v) (Raise e).
Proof.
  intros Hpre Hpop Hnew v Hv He.
  rewrite (theorem_fresh depth _ _ _ _ _ _ _ _ _ _ Hpre Hpop Hnew).
  fold v. rewrite Hv. destruct e; try done. by destruct (He message).
Qed.

End Definitions.

Section Paths.

Context `{Parser} `{Checker} `{World}.

Variable depth : nat.

(** X14: a path that is not there, or that is a directory, is reported
    and passed over: the state is as it was, nothing is raised, and the
    files after it are processed from the same state. *)

Theorem missing_path_is_skipped (fuel : nat) (path : string)
    (later : list string) (s : State.t) :
  path_exists path = false \/ path_isdir path = true ->
  let line :=
    if path_exists path then "Error: path " +:+ path +:+ " is a directory"
    else "Error: path " +:+ path +:+ " does not exists" in
  dopath depth fuel path s = Run s [line] (Ok tt) /\
  each (dopath depth fuel) (path :: later) s =
  after [line] (each (dopath depth fuel) later s).
Proof.
  intros Hskip line.
  assert (E : dopath depth fuel path s = Run s [line] (Ok tt)).
  { subst line. rewrite dopath_unfold.
    destruct (path_exists path); simpl; [| done].
    destruct Hskip as [Hno | Hdir]; [done |]. by rewrite Hdir. }
  split; [done |]. rewrite each_step. by rewrite E.
Qed.

Lemma self_include_step (callback : string -> cmd unit) (path text : string)
    (h e : sexp) (more later : list sexp) (s : State.t) :
  read path = Ok text ->
  sexpdata_parse text = Ok (SList (h :: e :: more) :: later) ->
  symbol h = Ok "include" ->
  symbol e = Ok path ->
  result (callback path (State.set_variables [] s)) = Exhausted ->
  result (dofile depth callback path s) = Exhausted /\
  printed (dofile depth callback path s) =
  ("Checking " +:+ path) :: printed (callback path (State.set_variables [] s)).
Proof.
  intros Hr Hparse Hh Hsym Hc. unfold dofile.
  rewrite print_bind, lift_bind, Hr. unfold doexprs.
  rewrite modify_bind, lift_bind, Hparse, each_step.
  assert (evaluate depth callback (SList (h :: e :: more))
            (State.set_variables [] s) =
          include callback (e :: more) (State.set_variables [] s)) as ->.
  { unfold evaluate. by rewrite lift_bind, Hh. }
  unfold include. rewrite each_step, lift_bind, Hsym, Hc. simpl.
  rewrite ?Hc. done.
Qed.

(** X15: a file whose first form includes the file itself is never done
    with: whatever the budget of nested includes, the run prints the
    line of the file once more than the budget and ends exhausted. *)

Theorem self_include_never_ends (path text : string) (h e : sexp)
    (more later : list sexp) (fuel : nat) :
  processed_file path text ->
  sexpdata_parse text = Ok (SList (h :: e :: more) :: later) ->
  symbol h = Ok "include" ->
  symbol e = Ok path ->
  forall s,
    result (dopath depth fuel path s) = Exhausted /\
    printed (dopath depth fuel path s) = replicate (S fuel) ("Checking " +:+ path).
Proof.
  intros (He & Hd & Hr) Hparse Hh Hsym.
  induction fuel as [|fuel IH]; intros s; rewrite dopath_unfold, He, Hd;
    cbn [negb].
  - destruct (self_include_step (nested depth 0) path text h e more later s)
      as [R' P']; try done.
  - destruct (IH (State.set_variables [] s)) as [R P].
    destruct (self_include_step (nested depth (S fuel)) path text h e more later s)
      as [R' P']; try done.
    split; [done |]. rewrite P'. simpl. by rewrite P.
Qed.

End Paths.

Section Rendering.

(** X18: the printable form of a term does not tell a variable from a
    literal: a term and the term with its variables turned into
    literals of the same names are printed alike. *)

Theorem sexpr_ignores_kind (t : Term) : sexpr (literal t) = sexpr t.
Proof.
  induction t as [| |children IH|] using Term_children_ind; try done.
  simpl. do 2 f_equal. f_equal. rewrite map_map.
  induction IH as [|c children Hc _ IHcs]; simpl; [done |]. by rewrite Hc, IHcs.
Qed.

End Rendering.

Section IncludedVariables.

Context `{Parser} `{Checker} `{World}.

Variable depth : nat.

Lemma forms_cases (dopath' : string -> cmd unit) (form : string)
    (handler : list sexp -> cmd unit) :
  assoc form (forms depth dopath') = Some handler ->
  (form = "postulate" /\ handler = postulate depth) \/
  (form = "theorem" /\ handler = theorem depth) \/
  (form = "lemma" /\ handler = theorem depth) \/
  (form = "infix" /\ handler = infix) \/
  (form = "variables" /\ handler = variables) \/
  (form = "bound" /\ handler = bound) \/
  (form = "define" /\ handler = define depth) \/
  (form = "include" /\ handler = include dopath').
Proof.
  unfold forms. simpl.
  repeat (destruct (String.eqb form _) eqn:E;
          [apply String.eqb_eq in E; intros [= <-]; subst; naive_solver |
           clear E]).
  done.
Qed.

Lemma declared_by_other (head : sexp) (tail : list sexp) (form : string) :
  symbol head = Ok form -> form <> "variables" ->
  declared_by (SList (head :: tail)) = [].
Proof.
  intros Hh Hform. unfold declared_by. rewrite Hh.
  destruct (String.eqb form "variables") eqn:E; [| done].
  by apply String.eqb_eq in E.
Qed.

Lemma postulate_variables (tail : list sexp) (s : State.t) :
  State.variables (final (postulate depth tail s)) = State.variables s.
Proof.
  destruct (postulate_loop_footprint depth (length tail) tail [] s) as [c E];
    [done |].
  unfold postulate. by rewrite E.
Qed.

Lemma theorem_variables (tail : list sexp) (s : State.t) :
  State.variables (final (theorem depth tail s)) = State.variables s.
Proof. by destruct (theorem_footprint depth tail s) as [c ->]. Qed.

Lemma infix_variables (tail : list sexp) (s : State.t) :
  State.variables (final (infix tail s)) = State.variables s.
Proof.
  unfold infix. destruct tail as [|ident [|prec [|? ?]]]; try done.
  destruct prec; try done.
  rewrite lift_bind. destruct (symbol ident) as [name| |]; try done.
  rewrite get_bind. by destruct (State.infix s !! name).
Qed.

Lemma bound_variables (tail : list sexp) (s : State.t) :
  State.variables (final (bound tail s)) = State.variables s.
Proof.
  unfold bound. rewrite get_bind, lift_bind.
  by destruct (maplist (term s) tail).
Qed.

Lemma define_variables (tail : list sexp) (s : State.t) :
  State.variables (final (define depth tail s)) = State.variables s.
Proof.
  unfold define. destruct tail as [|pattern [|body [|? ?]]]; try done.
  rewrite get_bind, lift_bind. destruct (term s pattern); try done.
  rewrite lift_bind. by destruct (parseterm depth s body).
Qed.

(** A form that is no include adds to the list of variables the names
    it declares, when it returns, and nothing when it raises. *)

Lemma evaluate_variables (dopath' : string -> cmd unit) (expr : sexp)
    (s : State.t) :
  ~ names_include expr ->
  State.variables (final (evaluate depth dopath' expr s)) =
  State.variables s ++
  match result (evaluate depth dopath' expr s) with
  | Ok _ => declared_by expr
  | _ => []
  end.
Proof.
  intros Hinc.
  destruct expr as [| |[|head tail]|]; try (simpl; by rewrite app_nil_r).
  unfold evaluate. rewrite lift_bind.
  destruct (symbol head) as [form| |] eqn:Hh; try (simpl; by rewrite app_nil_r).
  destruct (assoc form (forms depth dopath')) as [handler|] eqn:Ha;
    [| simpl; by rewrite app_nil_r].
  destruct (forms_cases dopath' form handler Ha)
    as [[-> ->]|[[-> ->]|[[-> ->]|[[-> ->]|[[-> ->]|[[-> ->]|[[-> ->]|[-> ->]]]]]]]].
  - rewrite postulate_variables, (declared_by_other head tail "postulate") by done.
    destruct (result _); by rewrite app_nil_r.
  - rewrite theorem_variables, (declared_by_other head tail "theorem") by done.
    destruct (result _); by rewrite app_nil_r.
  - rewrite theorem_variables, (declared_by_other head tail "lemma") by done.
    destruct (result _); by rewrite app_nil_r.
  - rewrite infix_variables, (declared_by_other head tail "infix") by done.
    destruct (result _); by rewrite app_nil_r.
  - unfold declared_by. rewrite Hh. simpl String.eqb. cbv iota.
    unfold variables. rewrite lift_bind.
    destruct (maplist symbol tail) as [names| |]; simpl; try done;
      by rewrite app_nil_r.
  - rewrite bound_variables, (declared_by_other head tail "bound") by done.
    destruct (result _); by rewrite app_nil_r.
  - rewrite define_variables, (declared_by_other head tail "define") by done.
    destruct (result _); by rewrite app_nil_r.
  - destruct Hinc. by exists head, tail.
Qed.

(** Over forms without an include, the list of variables gains the
    names declared by the forms that have returned, in order. *)

Lemma each_variables (dopath' : string -> cmd unit) (exprs : list sexp) :
  Forall (fun x => ~ names_include x) exprs ->
  forall s, exists returned,
    returned `prefix_of` exprs /\
    State.variables (final (each (evaluate depth dopath') exprs s)) =
    State.variables s ++ concat (declared_by <$> returned) /\
    (result (each (evaluate depth dopath') exprs s) = Ok tt -> returned = exprs).
Proof.
  induction 1 as [|x exprs Hx _ IH]; intros s.
  - exists []. simpl. by rewrite app_nil_r.
  - rewrite each_step. pose proof (evaluate_variables dopath' x s Hx) as Hv.
    destruct (result (evaluate depth dopath' x s)) as [[]| |].
    + destruct (IH (final (evaluate depth dopath' x s)))
        as (returned & Hpre & Hvars & Hall).
      exists (x :: returned). split; [by apply prefix_cons |]. simpl. split.
      * by rewrite Hvars, Hv, <- app_assoc.
      * intros Hr. by rewrite (Hall Hr).
    + exists []. split; [apply prefix_nil |]. by simpl.
    + exists []. split; [apply prefix_nil |]. by simpl.
Qed.

Lemma doexprs_enters (dopath' : string -> cmd unit) (text : string) (s : State.t) :
  doexprs depth dopath' text s =
  (exprs ← lift (sexpdata_parse text); each (evaluate depth dopath') exprs)
    (State.set_variables [] s).
Proof. unfold doexprs. by rewrite modify_bind. Qed.

Lemma dopath_enters (fuel : nat) (path text : string) (s : State.t) :
  processed_file path text ->
  dopath depth fuel path s =
  after ["Checking " +:+ path]
    ((exprs ← lift (sexpdata_parse text);
      each (evaluate depth (nested depth fuel)) exprs)
       (State.set_variables [] s)).
Proof.
  intros (He & Hd & Hr). rewrite dopath_unfold, He, Hd. cbn [negb].
  unfold dofile. by rewrite print_bind, lift_bind, Hr, doexprs_enters.
Qed.

(** C8: the variables declared before an include do not outlast it.
    [doexprs] assigns the empty list before it reads a form, for a file
    of the command line and for an included one alike: the forms of a
    file that is processed are evaluated from the state in which the
    list of variables is empty.  So an include that comes to a file
    which is processed ends as it would have ended had nothing been
    declared before it, in its state, in the lines printed and in its
    result (the paths before that file denote nothing, a directory or a
    processed file).  And when the forms of the file include nothing in
    their turn, the list holds, after the file and after the include of
    it, the names that the variables forms of the file have declared,
    up to the form that raised if one did, in order, and no other. *)

Theorem include_discards_variables (fuel : nat) (before : list string)
    (s : State.t) (skipped : list sexp) (e : sexp) (later : list sexp)
    (path text : string) :
  Forall (fun x => exists p,
            symbol x = Ok p /\
            (path_exists p = false \/ path_isdir p = true \/
             exists t, processed_file p t)) skipped ->
  symbol e = Ok path ->
  processed_file path text ->
  let declared := State.set_variables before s in
  let entered := State.set_variables [] s in
  State.variables entered = [] /\
  (forall dopath' text',
     doexprs depth dopath' text' declared =
     (exprs ← lift (sexpdata_parse text'); each (evaluate depth dopath') exprs)
       entered) /\
  dopath depth fuel path declared =
  after ["Checking " +:+ path]
    ((exprs ← lift (sexpdata_parse text);
      each (evaluate depth (nested depth fuel)) exprs) entered) /\
  (forall dopath' text',
     doexprs depth dopath' text' declared = doexprs depth dopath' text' entered) /\
  dopath depth fuel path declared = dopath depth fuel path entered /\
  include (dopath depth fuel) (skipped ++ e :: later) declared =
  include (dopath depth fuel) (skipped ++ e :: later) entered /\
  (forall exprs,
     sexpdata_parse text = Ok exprs ->
     Forall (fun x => ~ names_include x) exprs ->
     exists returned,
       returned `prefix_of` exprs /\
       State.variables (final (dopath depth fuel path declared)) =
       concat (declared_by <$> returned) /\
       State.variables (final (include (dopath depth fuel) [e] declared)) =
       concat (declared_by <$> returned) /\
       (result (dopath depth fuel path declared) = Ok tt -> returned = exprs)).
Proof.
  intros Hskipped Hsym Hfile declared entered.
  destruct (include_from_empty depth fuel before s skipped e later path text
              Hskipped Hsym Hfile) as (Hdo & Hpath & Hinclude).
  split; [done |].
  split; [intros; apply doexprs_enters |].
  split; [by apply dopath_enters |].
  split; [done |]. split; [done |]. split; [done |].
  intros exprs Hparse Hexprs.
  destruct (each_variables (nested depth fuel) exprs Hexprs entered)
    as (returned & Hpre & Hvars & Hall).
  assert (E : dopath depth fuel path declared =
              after ["Checking " +:+ path]
                (each (evaluate depth (nested depth fuel)) exprs entered)).
  { rewrite (dopath_enters fuel path text declared Hfile).
    by rewrite lift_bind, Hparse. }
  exists returned. split; [done |]. split; [by rewrite E |]. split.
  - unfold include. rewrite each_step, lift_bind, Hsym, E. simpl.
    by destruct (result (each (evaluate depth (nested depth fuel)) exprs entered))
      as [[]| |].
  - rewrite E. simpl. apply Hall.
Qed.

End IncludedVariables.

(** ** The theorems on the sample sources, with the kernel of the
    specification *)

#[local] Existing Instance Reference.parser.
#[local] Existing Instance Reference.checker.
#[local] Existing Instance sample_world.

Example separators_are_runs_of_one_dash :
  map isseparator [Symbol "─"; Symbol "──"; Symbol "---"; Symbol "-─"; Symbol "A"; Int 1]
  = [true; true; true; false; false; false].
Proof. reflexivity. Qed.

Example negation_is_expanded :
  let r := each (evaluate 5 (dopath 5 1)) negation_forms State.init in
  result r = Ok tt /\
  printed r = ["“NA” postulated"] /\
  State.context (final r) !! "NA" =
  Some (InferenceRule.mk [] (Symtree [Lit "⇒"; Lit "A"; Lit "⊥"])).
Proof. vm_compute. done. Qed.

Example self_expansion_exhausts :
  macroexpand 50 with_loop (Lit "x") = Exhausted.
Proof. vm_compute. reflexivity. Qed.

Example modus_ponens_is_checked :
  theorem 5 mp_form with_MP =
  Run (State.set_context
         (<["B" := InferenceRule.mk [] (Lit "B")]> (State.context with_MP)) with_MP)
      ["“B” checked"] (Ok tt).
Proof. vm_compute. reflexivity. Qed.

Lemma failed_theorem_arity_mismatch :
  theorem 5 arity_form with_Id =
  Run with_Id ["“X” has not been checked"; "Error: arity mismatch in “Id”"] (Ok tt).
Proof.
  refine (proj1 (failed_theorem_not_entered 5 arity_form with_Id
                   "X" (Lit "X") [] [] [("qed", ProofTerm.mk "Id" [] ∅)] []
                   "qed" (ProofTerm.mk "Id" [] ∅) "arity mismatch in “Id”"
                   _ _ _)); vm_compute; reflexivity.
Defined.

Lemma context_grows_on_redefinition :
  State.context
    (final (evaluate 5 (dopath 5 1)
              (SList [Symbol "postulate"; Symbol "─"; Symbol "A"; Symbol "B"])
              with_A)) !! "A"
  = Some (InferenceRule.mk [] (Lit "A")).
Proof.
  refine (proj1 (context_grows_monotonically 5 1 _ with_A "A" _ _)).
  vm_compute; reflexivity.
Defined.

Lemma redefinition_on_samples :
  postulate_loop 5 [] [Symbol "─"; Symbol "A"; Symbol "B"] with_A =
  Run with_A ["Error: “A” is already postulated"] (Ok tt) /\
  theorem 5 [Symbol "─"; Symbol "A"; Symbol "A"; Symbol "qed"; SList [Symbol "A"]]
    with_A =
  Run with_A ["Error: theorem “A” is already defined"] (Ok tt).
Proof.
  assert (State.context with_A !! "A" = Some (InferenceRule.mk [] (Lit "A")))
    as Hin by (vm_compute; reflexivity).
  destruct (redefinition_keeps_original 5 with_A "A" _ Hin) as [P T]. split.
  - refine (proj1 (P [] (Symbol "─") (Symbol "A") (Symbol "B") [] (Lit "B")
                     _ _ _)); vm_compute; reflexivity.
  - refine (proj1 (T _ (Lit "A") [] [] [("qed", ProofTerm.mk "A" [] ∅)] []
                     ("qed", ProofTerm.mk "A" [] ∅) _ _)); vm_compute; reflexivity.
Defined.

Lemma theorem_block_on_modus_ponens :
  exists τctx',
    locals_inferred (State.bound with_MP)
      (local_context (State.context with_MP) [] [])
      [("step", ProofTerm.mk "MP" [LemmaRef "A"; LemmaRef "AimpB"]
                  (dict [("φ", Lit "A"); ("ψ", Lit "B")]))] τctx' /\
    (check τctx' (State.bound with_MP) (Lit "B") (ProofTerm.mk "step" [] ∅)).2
    = Ok tt.
Proof.
  refine (proj1 (proj1 (proj2
    (theorem_block_in_order 5 mp_form with_MP "B" (Lit "B") [] []
       [("step", ProofTerm.mk "MP" [LemmaRef "A"; LemmaRef "AimpB"]
                   (dict [("φ", Lit "A"); ("ψ", Lit "B")]));
        ("qed", ProofTerm.mk "step" [] ∅)]
       _ "qed" (ProofTerm.mk "step" [] ∅) _ _ _))) _).
  - vm_compute; reflexivity.
  - vm_compute; reflexivity.
  - vm_compute; reflexivity.
  - vm_compute. by eexists.
Defined.

Lemma syntax_error_on_samples :
  postulate 5 [Symbol "A"] State.init =
  Run State.init [] (Raise (SyntaxError "incomplete definition")) /\
  evaluate 5 (dopath 5 1) (SList [Symbol "frobnicate"]) State.init =
  Run State.init [] (Raise (AssertionError "unknown form “frobnicate”")) /\
  dopath 5 1 "bad.pri" State.init =
  Run State.init ["Checking bad.pri"]
      (Raise (SyntaxError "incomplete definition")) /\
  main 5 1 ["bad.pri"; "good.pri"] =
  Run State.init ["Checking bad.pri"]
      (Raise (SyntaxError "incomplete definition")).
Proof.
  destruct (error_ends_the_run 5 1 State.init) as (P1 & P2 & P3 & P4).
  split; [| split; [| split]].
  - refine (P1 [Symbol "A"] [Lit "A"] _ _ _); try done.
    repeat constructor.
  - refine (P2 _ (Symbol "frobnicate") [] "frobnicate" _ _); reflexivity.
  - refine (P3 "bad.pri" "(postulate A)" []
              (SList [Symbol "postulate"; Symbol "A"]) []
              (SyntaxError "incomplete definition") _ _ _ _);
      try (vm_compute; reflexivity). by split.
  - refine (P4 [] "bad.pri" ["good.pri"]
              (SyntaxError "incomplete definition") _ _);
      vm_compute; reflexivity.
Defined.

Lemma later_file_not_processed :
  main 5 1 ["bad.pri"; "good.pri"] =
  Run State.init ["Checking bad.pri"] (Raise (SyntaxError "incomplete definition")) /\
  State.context (final (dopath 5 1 "good.pri" State.init)) !! "B" =
  Some (InferenceRule.mk [] (Lit "B")) /\
  ~ error_stops_at_file 5 1.
Proof.
  split; [vm_compute; reflexivity |]. split; [vm_compute; reflexivity |].
  intros Hclaim.
  specialize (Hclaim [] "bad.pri" ["good.pri"]
                (SyntaxError "incomplete definition")).
  cbv zeta in Hclaim.
  assert (State.context (final (main 5 1 ([] ++ "bad.pri" :: ["good.pri"]))) !! "B"
          = Some (InferenceRule.mk [] (Lit "B"))) as Hb.
  { rewrite Hclaim; vm_compute; reflexivity. }
  vm_compute in Hb. discriminate.
Qed.

Lemma twice_bound_keeps_last :
  exists written : list (string * Term),
    binds 5 with_MP
      [Symbol "φ"; Symbol "≔"; Symbol "A"; Symbol "φ"; Symbol ":="; Symbol "B"]
      written /\
    (forall k,
       ProofTerm.substitutions
         (ProofTerm.mk "MP" [LemmaRef "x"] (dict [("φ", Lit "A"); ("φ", Lit "B")]))
       !! k = last_written k written) /\
    (forall k τ before later,
       written = before ++ (k, τ) :: later -> k ∉ later.*1 ->
       ProofTerm.substitutions
         (ProofTerm.mk "MP" [LemmaRef "x"] (dict [("φ", Lit "A"); ("φ", Lit "B")]))
       !! k = Some τ) /\
    NoDup (map_to_list
             (ProofTerm.substitutions
                (ProofTerm.mk "MP" [LemmaRef "x"]
                   (dict [("φ", Lit "A"); ("φ", Lit "B")])))).*1.
Proof.
  refine (substitution_last_binding_wins 5 with_MP (Symbol "MP") _ [Symbol "x"] _ _).
  vm_compute; reflexivity.
Defined.

Lemma include_keeps_only_included :
  State.variables
    (final (include (dopath 5 1) [Symbol "missing.pri"; Symbol "inc.pri"]
              (State.set_variables ["φ"] State.init)))
  = ["ψ"] /\
  dopath 5 1 "inc.pri" (State.set_variables ["φ"] State.init) =
  after ["Checking inc.pri"]
    (each (evaluate 5 (nested 5 1)) [SList [Symbol "variables"; Symbol "ψ"]]
       (State.set_variables [] State.init)) /\
  State.variables
    (final (include (dopath 5 1) [Symbol "inc.pri"]
              (State.set_variables ["φ"] State.init)))
  = concat (declared_by <$> [SList [Symbol "variables"; Symbol "ψ"]]).
Proof.
  assert (Forall (fun x => exists p,
            symbol x = Ok p /\
            (path_exists p = false \/ path_isdir p = true \/
             exists t, processed_file p t)) [Symbol "missing.pri"]) as Hskipped.
  { repeat constructor. exists "missing.pri". split; [done | by left]. }
  assert (processed_file "inc.pri" "(variables ψ)") as Hfile by done.
  destruct (include_discards_variables 5 1 ["φ"] State.init
              [Symbol "missing.pri"] (Symbol "inc.pri") [] "inc.pri"
              "(variables ψ)" Hskipped eq_refl Hfile)
    as (_ & _ & Henter & _ & _ & Hinclude & Hafter).
  split; [| split].
  - cbn [app] in Hinclude. rewrite Hinclude. vm_compute; reflexivity.
  - exact Henter.
  - destruct (Hafter [SList [Symbol "variables"; Symbol "ψ"]] eq_refl)
      as (returned & _ & _ & Hvars & Hall).
    + repeat constructor. intros (head & tail & [= <- <-] & Hhead).
      discriminate Hhead.
    + rewrite Hvars. rewrite Hall; [done | vm_compute; reflexivity].
Defined.

Lemma infix_plus_kept :
  infix [Symbol "+"; Int 7] with_plus =
  Run with_plus ["Error: operator “+” (5) is already defined"] (Ok tt).
Proof.
  refine (proj1 (infix_registered_operator_kept (Symbol "+") 7 5 "+" with_plus _ _));
    vm_compute; reflexivity.
Defined.

Lemma empty_lemma_form_ignored :
  theorem 5 [] with_A = Run with_A [] (Ok tt) /\
  evaluate 5 (dopath 5 1) (SList [Symbol "lemma"]) with_A = Run with_A [] (Ok tt) /\
  each (evaluate 5 (dopath 5 1))
       [SList [Symbol "lemma"]; SList [Symbol "variables"; Symbol "φ"]] with_A =
  each (evaluate 5 (dopath 5 1)) [SList [Symbol "variables"; Symbol "φ"]] with_A.
Proof.
  refine (empty_theorem_ignored 5 (dopath 5 1) (Symbol "lemma") "lemma" _ with_A _ _).
  - reflexivity.
  - by right.
Defined.

(** ** The further properties on the sample sources *)

Lemma postulate_declares_modus_ponens :
  let rule := InferenceRule.mk [Lit "P"; Symtree [Lit "⇒"; Lit "P"; Lit "Q"]] (Lit "Q") in
  let s' := State.set_context (<["MP'" := rule]> (State.context with_A)) with_A in
  postulate_loop 5 []
    [Symbol "P"; SList [Symbol "⇒"; Symbol "P"; Symbol "Q"];
     Symbol "─"; Symbol "MP'"; Symbol "Q"] with_A
  = Run s' ["“MP'” postulated"] (Ok tt) /\
  State.context s' !! "MP'" = Some rule.
Proof.
  refine (postulate_declares 5 with_A []
            [Symbol "P"; SList [Symbol "⇒"; Symbol "P"; Symbol "Q"]]
            [Lit "P"; Symtree [Lit "⇒"; Lit "P"; Lit "Q"]]
            (Symbol "─") (Symbol "MP'") (Symbol "Q") [] "MP'" (Lit "Q")
            _ _ _ _ _ _); try (vm_compute; reflexivity).
  repeat constructor.
Defined.

Lemma postulate_keeps_group_before_dangling :
  postulate 5 [Symbol "─"; Symbol "B"; Symbol "B"; Symbol "C"] with_A =
  Run (State.set_context
         (<["B" := InferenceRule.mk [] (Lit "B")]> (State.context with_A)) with_A)
      ["“B” postulated"] (Raise (SyntaxError "incomplete definition")).
Proof.
  refine (postulate_keeps_groups_before_error 5 with_A [] []
            (Symbol "─") (Symbol "B") (Symbol "B") [Symbol "C"] "B" (Lit "B")
            [Lit "C"] _ _ _ _ _ _ _ _ _); try (vm_compute; reflexivity);
    try done; repeat constructor.
Defined.

Lemma genenv_errors_on_samples :
  genenv 5 with_MP [Symbol "φ"; Symbol "≔"; Symbol "A"; Symbol "ψ"] =
  Raise (SyntaxError "“ψ” mapped to nothing") /\
  genenv 5 with_MP [Symbol "φ"; Symbol "≔"; Symbol "A"; Symbol "ψ"; Symbol "≔"] =
  Raise (SyntaxError "“ψ” mapped to nothing") /\
  genenv 5 with_MP
    [Symbol "φ"; Symbol "≔"; Symbol "A"; Symbol "ψ"; Symbol "="; Symbol "B";
     Symbol "χ"] =
  Raise (SyntaxError "invalid substitution list").
Proof.
  assert (binds 5 with_MP [Symbol "φ"; Symbol "≔"; Symbol "A"] [("φ", Lit "A")])
    as Hfront.
  { apply (genenv_binds 5 with_MP 3); [done | vm_compute; reflexivity]. }
  destruct (genenv_errors 5 with_MP _ _ (Symbol "ψ") "ψ" Hfront eq_refl)
    as (E1 & E2 & E3).
  split; [exact E1 |]. split.
  - exact (E2 (Symbol "≔") "≔" eq_refl).
  - refine (E3 (Symbol "=") "=" (Symbol "B") (Lit "B") [Symbol "χ"] _ _ _);
      try (vm_compute; reflexivity).
    unfold separators. rewrite !not_elem_of_cons.
    repeat split; try discriminate. apply not_elem_of_nil.
Defined.

Lemma genenv_two_bindings :
  length [Symbol "φ"; Symbol "≔"; Symbol "A"; Symbol "ψ"; Symbol ":="; Symbol "B"]
  = 3 * length [("φ", Lit "A"); ("ψ", Lit "B")].
Proof.
  refine (genenv_by_threes 5 with_MP _ _ _). vm_compute; reflexivity.
Defined.

Lemma proof_of_plain_citation :
  symbol (Symbol "MP") = Ok "MP" /\
  maplist argument [Symbol "A"; SList [Symbol "sorry"; Symbol "gap"]] =
  Ok [LemmaRef "A"; Sorry "gap"] /\
  ProofTerm.substitutions
    (ProofTerm.mk "MP" [LemmaRef "A"; Sorry "gap"] ∅) = ∅.
Proof.
  refine (proof_without_substitutions 5 with_MP (Symbol "MP")
            [Symbol "A"; SList [Symbol "sorry"; Symbol "gap"]]
            (ProofTerm.mk "MP" [LemmaRef "A"; Sorry "gap"] ∅) _ _).
  - done.
  - vm_compute; reflexivity.
Defined.

Lemma preamble_shape_of_assumption :
  length ["h"] = length [Lit "A"] /\
  exists locals last,
    pop [("qed", ProofTerm.mk "h" [] ∅)] = Ok (locals, last) /\
    [("qed", ProofTerm.mk "h" [] ∅)] = locals ++ [last].
Proof.
  refine (preamble_shape 5 with_A assumption_form "T" (Lit "A") _ _ _ _).
  vm_compute; reflexivity.
Defined.

Lemma preamble_reads_assumption :
  preamble 5 with_A assumption_form =
  Ok ("T", Lit "A", ["h"], [Lit "A"], [("qed", ProofTerm.mk "h" [] ∅)]).
Proof.
  refine (preamble_reads_hypotheses 5 with_A
            [(Symbol "─", Symbol "h", Symbol "A")] [("h", Lit "A")]
            (Symbol "─") (Symbol "T") (Symbol "A") (Symbol "qed")
            [SList [Symbol "h"]] "T" (Lit "A") _ _ _ _ _ _ _ _);
    try (vm_compute; reflexivity).
  repeat constructor.
Defined.

Lemma infix_times_registered_once :
  let s' := State.set_infix (<["×" := 7%Z]> (State.infix with_plus)) with_plus in
  infix [Symbol "×"; Int 7] with_plus = Run s' [] (Ok tt) /\
  State.infix s' !! "×" = Some 7%Z /\
  (infix [Symbol "×"; Int 7];; infix [Symbol "×"; Int 9]) with_plus =
  Run s' ["Error: operator “×” (7) is already defined"] (Ok tt).
Proof.
  refine (infix_first_registration_stays (Symbol "×") (Symbol "×") 7 9 "×"
            with_plus _ _ _); vm_compute; reflexivity.
Defined.

Lemma define_conjunction_after_negation :
  let p := Symtree [Lit "∧"; Var "φ"; Var "φ"] in
  let s' := State.set_defs (State.defs with_negation ++ [(p, Var "φ")]) with_negation in
  define 5 [SList [Symbol "∧"; Symbol "φ"; Symbol "φ"]; Symbol "φ"] with_negation
  = Run s' [] (Ok tt) /\
  forall t,
    macroexpand_head (State.defs s') t =
    if existsb (fun def => (match_ ∅ def.1 t).1) (State.defs with_negation)
    then macroexpand_head (State.defs with_negation) t
    else if (match_ ∅ p t).1 then multisubst (match_ ∅ p t).2 (Var "φ") else t.
Proof.
  refine (define_comes_last 5 _ _ (Symtree [Lit "∧"; Var "φ"; Var "φ"]) (Var "φ")
            with_negation _ _); vm_compute; reflexivity.
Defined.

Lemma missing_file_is_passed_over :
  dopath 5 1 "missing.pri" State.init =
  Run State.init ["Error: path missing.pri does not exists"] (Ok tt) /\
  each (dopath 5 1) ["missing.pri"; "good.pri"] State.init =
  after ["Error: path missing.pri does not exists"]
        (each (dopath 5 1) ["good.pri"] State.init).
Proof.
  refine (missing_path_is_skipped 5 1 "missing.pri" ["good.pri"] State.init _).
  by left.
Defined.

Lemma loop_file_never_ends :
  result (dopath (H1 := loop_world) 5 3 "loop.pri" State.init) = Exhausted /\
  printed (dopath (H1 := loop_world) 5 3 "loop.pri" State.init) =
  replicate 4 "Checking loop.pri".
Proof.
  refine (self_include_never_ends (H1 := loop_world) 5 "loop.pri"
            "(include loop.pri)" (Symbol "include") (Symbol "loop.pri") [] [] 3
            _ _ _ _ State.init); try reflexivity. by split.
Defined.

Lemma macroexpand_leaves_conjunction :
  macroexpand 2 with_negation (Symtree [Lit "∧"; Lit "A"; Lit "B"]) =
  Ok (Symtree [Lit "∧"; Lit "A"; Lit "B"]).
Proof.
  refine (proj1 (macroexpand_leaves_untouched with_negation
                   (Symtree [Lit "∧"; Lit "A"; Lit "B"]) 2 _) _).
  - simpl. lia.
  - constructor; [vm_compute; reflexivity |].
    intros children [= <-].
    repeat (apply List.Forall_cons;
            [constructor; [vm_compute; reflexivity | by intros ? [=]] |]).
    apply List.Forall_nil.
Defined.

Lemma type_error_leaves_theorem :
  theorem (H0 := broken_checker) 5 arity_form with_Id =
  Run with_Id [] (Raise TypeError).
Proof.
  refine (theorem_passes_other_errors (H0 := broken_checker) 5 arity_form with_Id
            "X" (Lit "X") [] [] [("qed", ProofTerm.mk "Id" [] ∅)] []
            "qed" (ProofTerm.mk "Id" [] ∅) TypeError _ _ _ _ _);
    try (vm_compute; reflexivity). done.
Defined.

Lemma theorem_without_proof_on_assumption :
  preamble 5 with_A [Symbol "─"; Symbol "T"; Symbol "A"] = Raise IndexError /\
  theorem 5 [Symbol "─"; Symbol "T"; Symbol "A"] with_A =
  Run with_A [] (Raise IndexError).
Proof.
  refine (theorem_without_proof 5 with_A [(Symbol "─", Symbol "T", Symbol "A")]
            [("T", Lit "A")] _ _); [done |].
  repeat constructor.
Defined.

Lemma postulate_cut_on_samples :
  let s1 := State.set_context
              (<["B" := InferenceRule.mk [] (Lit "B")]> (State.context with_A))
              with_A in
  postulate 5 [Symbol "─"; Symbol "B"; Symbol "B"; Symbol "C"; Symbol "─"] with_A =
  Run s1 ["“B” postulated"] (Raise IndexError) /\
  forall n name, symbol n = Ok name ->
    postulate 5 [Symbol "─"; Symbol "B"; Symbol "B"; Symbol "C"; Symbol "─"; n]
      with_A =
    Run s1 ["“B” postulated"] (Raise IndexError).
Proof.
  refine (postulate_cut_after_separator 5 with_A _ ["“B” postulated"]
            [Symbol "─"; Symbol "B"; Symbol "B"] [Symbol "C"] [Lit "C"]
            (Symbol "─") _ _ _ _); try (vm_compute; reflexivity).
  repeat constructor.
Defined.
